(** * The auto-refreshing read proxy of package [lease] (read_proxy.go)

    A shallow embedding of the proxy's helpers and public methods, and the
    properties of its recovery protocol.

    The proxy talks to four collaborators that the package only knows through
    Go interfaces: the file leaser, read leases, read/write leases and the
    stream returned by the content function.  They are type classes here,
    over an abstract [World] that stands for everything outside the proxy
    (the leaser's files, what other goroutines revoked, the remote origin).
    A call to a collaborator is a function of the world; every theorem holds
    for every instance.

    The mutex [mu] is held by each public method from entry to exit, so a
    method body is modelled as one sequential run. *)

From Stdlib Require Import List ZArith String Bool Lia.
Import ListNotations.

Module lease.

(** ** Errors

    A Go [error] value.  [isRevokedErr] only looks at the dynamic type, and
    every other use formats the error with [%v], so an error is either a
    [*RevokedError], a value made by [fmt.Errorf] (never a [*RevokedError]),
    or some other error of a collaborator. *)
Inductive error : Type :=
| RevokedError : error
| Foreign (msg : string) : error
| Errorf (format : string) (arg : error) : error
| ErrorfCopied (format : string) (copied expected : Z) : error.

(** [nil] is [None]. *)
Definition isRevokedErr (err : option error) : bool :=
  match err with
  | Some RevokedError => true
  | _ => false
  end.

(** ** Collaborators

    A Go result pair [(v, err)] that carries a lease or a stream is a sum: a
    usable value with a nil error, or the error.  The pairs of [Read], [Seek],
    [ReadAt] and [io.Copy] are kept as pairs, since a count can come with an
    error.  A [[]byte] argument is a [Slice]: a view of memory of the caller,
    which belongs to the world, so what a read stores through it is part of
    the new world. *)
Class FileLeaser (World RWL : Type) : Type := {
  NewFile : World -> (RWL + error) * World
}.

Class ReadLease (World Slice RL RWL : Type) : Type := {
  rl_Read : RL -> Slice -> World -> (Z * option error) * World;
  rl_Seek : RL -> Z -> Z -> World -> (Z * option error) * World;
  rl_ReadAt : RL -> Slice -> Z -> World -> (Z * option error) * World;
  rl_Upgrade : RL -> World -> (RWL + error) * World;
  rl_Revoke : RL -> World -> World
}.

Class ReadWriteLease (World Slice RL RWL : Type) : Type := {
  rwl_Read : RWL -> Slice -> World -> (Z * option error) * World;
  rwl_Seek : RWL -> Z -> Z -> World -> (Z * option error) * World;
  rwl_ReadAt : RWL -> Slice -> Z -> World -> (Z * option error) * World;
  rwl_Downgrade : RWL -> World -> (RL + error) * World
}.

(** [io.ReadCloser], with [io.Copy] into a read/write lease as its way of
    being read. *)
Class ReadCloser (World RWL RC : Type) : Type := {
  io_Copy : RWL -> RC -> World -> (Z * option error) * World;
  rc_Close : RC -> World -> option error * World
}.

Section Proxy.

Context {World Ctx Slice RL RWL RC : Type}.

Context {leaser : FileLeaser World RWL}.
Context {RLops : ReadLease World Slice RL RWL}.
Context {RWLops : ReadWriteLease World Slice RL RWL}.
Context {RCops : ReadCloser World RWL RC}.

(** The content function, field [f func() (io.ReadCloser, error)]. *)
Variable f : World -> (RC + error) * World.

(** ** The proxy

    The mutable fields and the constant [size]; the dependencies [leaser]
    and [f] are fixed above. *)
Record ReadProxy : Type := mkReadProxy {
  size : Z;
  revoked : bool;
  wrapped : option RL
}.

(** ** Observable calls

    Every call that leaves the proxy is recorded, in order.
    [Enter_getContents] marks an execution of the helper. *)
Inductive event : Type :=
| Enter_getContents
| Call_NewFile
| Call_f
| Call_Copy (dst : RWL) (src : RC)
| Call_Close (rc : RC)
| Call_Downgrade (rwl : RWL)
| Call_Revoke (rl : RL)
| Call_rl_Read (rl : RL)
| Call_rl_Seek (rl : RL)
| Call_rl_ReadAt (rl : RL)
| Call_rl_Upgrade (rl : RL)
| Call_rwl_Read (rwl : RWL)
| Call_rwl_Seek (rwl : RWL)
| Call_rwl_ReadAt (rwl : RWL)
| Log_Printf (format : string) (arg : error).

Record state : Type := mkState {
  proxy : ReadProxy;
  world : World;
  log : list event
}.

(** ** A state monad over [state] *)
Definition M (A : Type) : Type := state -> A * state.

Definition ret {A : Type} (a : A) : M A := fun s => (a, s).

Definition bind {A B : Type} (m : M A) (k : A -> M B) : M B :=
  fun s => let (a, s') := m s in k a s'.

Definition emit (e : event) : M unit :=
  fun s => (tt, mkState (proxy s) (world s) (log s ++ [e])).

Definition extern {A : Type} (e : event) (c : World -> A * World) : M A :=
  fun s => let (a, w) := c (world s) in
           (a, mkState (proxy s) w (log s ++ [e])).

Definition this : M ReadProxy := fun s => (proxy s, s).

Definition set_revoked (b : bool) : M unit :=
  fun s => (tt, mkState (mkReadProxy (size (proxy s)) b (wrapped (proxy s)))
                        (world s) (log s)).

Definition set_wrapped (o : option RL) : M unit :=
  fun s => (tt, mkState (mkReadProxy (size (proxy s)) (revoked (proxy s)) o)
                        (world s) (log s)).

Declare Scope proxy_scope.
Delimit Scope proxy_scope with proxy.
Notation "x <- c ;; k" := (bind c (fun x => k))
  (at level 61, c at next level, right associativity) : proxy_scope.
Notation "' p <- c ;; k" := (bind c (fun x => match x with p => k end))
  (at level 61, p pattern, c at next level, right associativity) : proxy_scope.
Notation "c ;;; k" := (bind c (fun _ => k))
  (at level 61, right associativity) : proxy_scope.
Local Open Scope proxy_scope.

(** ** Helpers *)

(** Return the size of the proxied content. *)
Definition Size : M Z := rl <- this ;; ret (size rl).

(** [destroyReadWriteLease]: downgrade, then revoke the read lease; a
    failure to downgrade is logged by the deferred function and nothing
    else is done. *)
Definition destroyReadWriteLease (rwl : RWL) : M unit :=
  r <- extern (Call_Downgrade rwl) (rwl_Downgrade rwl) ;;
  match r with
  | inr e =>
      emit (Log_Printf "Error destroying read/write lease: %v"
                       (Errorf "Downgrade: %v" e))
  | inl rl => extern (Call_Revoke rl) (fun w => (tt, rl_Revoke rl w))
  end.

(** What [getContents] returns: [(rwl, nil)], or [(rwl, err)] with a
    non-nil [err], where [rwl] is nil when the leaser gave none. *)
Inductive contents : Type :=
| Filled (rwl : RWL)
| Failed (rwl : option RWL) (err : error).

(** The body of [getContents] between the registration of the second
    deferred function and the return: copy, then compare the count with the
    declared size. *)
Definition copyContents (rwl : RWL) (rc : RC) : M (option error) :=
  ' (copied, err) <- extern (Call_Copy rwl rc) (io_Copy rwl rc) ;;
  match err with
  | Some e => ret (Some (Errorf "Copy: %v" e))
  | None =>
      expected <- Size ;;
      if (copied =? expected)%Z then ret None
      else ret (Some (ErrorfCopied "Copied %v bytes; expected %v"
                                   copied expected))
  end.

(** The second deferred function of [getContents]: close the stream, and
    keep the close error only when there is no error yet. *)
Definition closeDeferred (rc : RC) (err : option error) : M (option error) :=
  closeErr <- extern (Call_Close rc) (rc_Close rc) ;;
  match closeErr, err with
  | Some ce, None => ret (Some (Errorf "Close: %v" ce))
  | _, _ => ret err
  end.

(** The body of [getContents] after the first deferred function is
    registered. *)
Definition fillContents (rwl : RWL) : M (option error) :=
  r <- extern Call_f f ;;
  match r with
  | inr e => ret (Some (Errorf "User function: %v" e))
  | inl rc =>
      err <- copyContents rwl rc ;;
      closeDeferred rc err
  end.

(** [getContents]: set up a read/write lease and fill in the contents.  The
    deferred functions run last registered first: the stream is closed, then
    the lease is destroyed if [err] is not nil. *)
Definition getContents : M contents :=
  emit Enter_getContents ;;;
  r <- extern Call_NewFile NewFile ;;
  match r with
  | inr e => ret (Failed None (Errorf "NewFile: %v" e))
  | inl rwl =>
      err <- fillContents rwl ;;
      match err with
      | Some e => destroyReadWriteLease rwl ;;; ret (Failed (Some rwl) e)
      | None => ret (Filled rwl)
      end
  end.

(** [saveContents]: downgrade and keep the lease; a failure is logged and
    the lease abandoned. *)
Definition saveContents (rwl : RWL) : M unit :=
  r <- extern (Call_Downgrade rwl) (rwl_Downgrade rwl) ;;
  match r with
  | inr e =>
      emit (Log_Printf "Failed to downgrade write lease (%q); abandoning." e)
  | inl downgraded => set_wrapped (Some downgraded)
  end.

(** ** Public interface *)

(** [NewReadProxy]: a proxy that holds no lease and is not revoked; the
    leaser and the content function are the ones fixed above. *)
Definition NewReadProxy (size : Z) : ReadProxy := mkReadProxy size false None.

(** [Read]: semantics matching [io.Reader], except with context support.
    The results [n] and [err] are named: when [getContents] fails, [n] is
    what the wrapped lease left in it. *)
Definition Read (ctx : Ctx) (p : Slice) : M (Z * option error) :=
  let anew (n : Z) : M (Z * option error) :=
    c <- getContents ;;
    match c with
    | Failed _ e => ret (n, Some (Errorf "getContents: %v" e))
    | Filled rwl =>
        r <- extern (Call_rwl_Read rwl) (rwl_Read rwl p) ;;
        saveContents rwl ;;;
        ret r
    end in
  rl <- this ;;
  if revoked rl then ret (0%Z, Some RevokedError)
  else
    match wrapped rl with
    | Some w =>
        ' (n, err) <- extern (Call_rl_Read w) (rl_Read w p) ;;
        if isRevokedErr err then anew n else ret (n, err)
    | None => anew 0%Z
    end.

(** [Seek]: semantics matching [io.Seeker], except with context support. *)
Definition Seek (ctx : Ctx) (offset whence : Z) : M (Z * option error) :=
  let anew (off : Z) : M (Z * option error) :=
    c <- getContents ;;
    match c with
    | Failed _ e => ret (off, Some (Errorf "getContents: %v" e))
    | Filled rwl =>
        r <- extern (Call_rwl_Seek rwl) (rwl_Seek rwl offset whence) ;;
        saveContents rwl ;;;
        ret r
    end in
  rl <- this ;;
  if revoked rl then ret (0%Z, Some RevokedError)
  else
    match wrapped rl with
    | Some w =>
        ' (off, err) <- extern (Call_rl_Seek w) (rl_Seek w offset whence) ;;
        if isRevokedErr err then anew off else ret (off, err)
    | None => anew 0%Z
    end.

(** [ReadAt]: semantics matching [io.ReaderAt], except with context
    support. *)
Definition ReadAt (ctx : Ctx) (p : Slice) (off : Z) : M (Z * option error) :=
  let anew (n : Z) : M (Z * option error) :=
    c <- getContents ;;
    match c with
    | Failed _ e => ret (n, Some (Errorf "getContents: %v" e))
    | Filled rwl =>
        r <- extern (Call_rwl_ReadAt rwl) (rwl_ReadAt rwl p off) ;;
        saveContents rwl ;;;
        ret r
    end in
  rl <- this ;;
  if revoked rl then ret (0%Z, Some RevokedError)
  else
    match wrapped rl with
    | Some w =>
        ' (n, err) <- extern (Call_rl_ReadAt w) (rl_ReadAt w p off) ;;
        if isRevokedErr err then anew n else ret (n, err)
    | None => anew 0%Z
    end.

(** [Upgrade]: return a read/write lease for the proxied contents.  The
    deferred function sets [revoked] when [err] is nil at the return. *)
Definition Upgrade : M (option RWL * option error) :=
  let anew : M (option RWL * option error) :=
    c <- getContents ;;
    match c with
    | Failed rwl e => ret (rwl, Some (Errorf "getContents: %v" e))
    | Filled rwl => ret (Some rwl, None)
    end in
  rl <- this ;;
  if revoked rl then ret (None, Some RevokedError)
  else
    ' (rwl, err) <-
      match wrapped rl with
      | Some w =>
          r <- extern (Call_rl_Upgrade w) (rl_Upgrade w) ;;
          match r with
          | inl rwl => ret (Some rwl, None)
          | inr e =>
              if isRevokedErr (Some e) then anew else ret (None, Some e)
          end
      | None => anew
      end ;;
    match err with
    | None => set_revoked true
    | Some _ => ret tt
    end ;;;
    ret (rwl, err).

(** [Destroy]: destroy any resources in use by the read proxy.  It has no
    test of [revoked].  ([Destroyed], for tests only, panics and is left
    out.) *)
Definition Destroy : M unit :=
  set_revoked true ;;;
  rl <- this ;;
  match wrapped rl with
  | Some w => extern (Call_Revoke w) (fun w0 => (tt, rl_Revoke w w0))
  | None => ret tt
  end.

(** ** Calls and sequences of calls *)

(** The three accessors, as one family. *)
Inductive accessor : Type :=
| AccRead (ctx : Ctx) (p : Slice)
| AccSeek (ctx : Ctx) (offset whence : Z)
| AccReadAt (ctx : Ctx) (p : Slice) (off : Z).

Definition access (a : accessor) : M (Z * option error) :=
  match a with
  | AccRead ctx p => Read ctx p
  | AccSeek ctx offset whence => Seek ctx offset whence
  | AccReadAt ctx p off => ReadAt ctx p off
  end.

(** The call an accessor makes on the lease held in the slot. *)
Definition held_call (a : accessor) (w : RL) : M (Z * option error) :=
  match a with
  | AccRead _ p => extern (Call_rl_Read w) (rl_Read w p)
  | AccSeek _ offset whence => extern (Call_rl_Seek w) (rl_Seek w offset whence)
  | AccReadAt _ p off => extern (Call_rl_ReadAt w) (rl_ReadAt w p off)
  end.

(** The call an accessor makes on a read/write lease just filled. *)
Definition fresh_call (a : accessor) (rwl : RWL) : M (Z * option error) :=
  match a with
  | AccRead _ p => extern (Call_rwl_Read rwl) (rwl_Read rwl p)
  | AccSeek _ offset whence =>
      extern (Call_rwl_Seek rwl) (rwl_Seek rwl offset whence)
  | AccReadAt _ p off => extern (Call_rwl_ReadAt rwl) (rwl_ReadAt rwl p off)
  end.

(** The recovery protocol that the three accessors spell out each for
    itself: fail when revoked, try the held lease, and on a revoked error
    (or with no lease) get the contents anew, serve from the read/write
    lease and save it. *)
Definition recover (a : accessor) (n : Z) : M (Z * option error) :=
  c <- getContents ;;
  match c with
  | Failed _ e => ret (n, Some (Errorf "getContents: %v" e))
  | Filled rwl =>
      r <- fresh_call a rwl ;;
      saveContents rwl ;;;
      ret r
  end.

Definition protocol (a : accessor) : M (Z * option error) :=
  rl <- this ;;
  if revoked rl then ret (0%Z, Some RevokedError)
  else
    match wrapped rl with
    | Some w =>
        ' (n, err) <- held_call a w ;;
        if isRevokedErr err then recover a n else ret (n, err)
    | None => recover a 0%Z
    end.

(** The paths through [getContents], by the answers of the collaborators:
    what it returns and the state it leaves. *)
Inductive derives (s : state) : contents -> state -> Prop :=
| derives_no_file e w1 :
    NewFile (world s) = (inr e, w1) ->
    derives s (Failed None (Errorf "NewFile: %v" e))
      (mkState (proxy s) w1 (log s ++ [Enter_getContents; Call_NewFile]))
| derives_no_stream rwl w1 e w2 :
    NewFile (world s) = (inl rwl, w1) ->
    f w1 = (inr e, w2) ->
    derives s (Failed (Some rwl) (Errorf "User function: %v" e))
      (snd (destroyReadWriteLease rwl
              (mkState (proxy s) w2
                 (log s ++ [Enter_getContents; Call_NewFile; Call_f]))))
| derives_copy_error rwl w1 rc w2 copied e w3 closeErr w4 :
    NewFile (world s) = (inl rwl, w1) ->
    f w1 = (inl rc, w2) ->
    io_Copy rwl rc w2 = ((copied, Some e), w3) ->
    rc_Close rc w3 = (closeErr, w4) ->
    derives s (Failed (Some rwl) (Errorf "Copy: %v" e))
      (snd (destroyReadWriteLease rwl
              (mkState (proxy s) w4
                 (log s ++ [Enter_getContents; Call_NewFile; Call_f;
                            Call_Copy rwl rc; Call_Close rc]))))
| derives_mismatch rwl w1 rc w2 copied w3 closeErr w4 :
    NewFile (world s) = (inl rwl, w1) ->
    f w1 = (inl rc, w2) ->
    io_Copy rwl rc w2 = ((copied, None), w3) ->
    copied <> size (proxy s) ->
    rc_Close rc w3 = (closeErr, w4) ->
    derives s
      (Failed (Some rwl)
         (ErrorfCopied "Copied %v bytes; expected %v" copied (size (proxy s))))
      (snd (destroyReadWriteLease rwl
              (mkState (proxy s) w4
                 (log s ++ [Enter_getContents; Call_NewFile; Call_f;
                            Call_Copy rwl rc; Call_Close rc]))))
| derives_close_error rwl w1 rc w2 w3 ce w4 :
    NewFile (world s) = (inl rwl, w1) ->
    f w1 = (inl rc, w2) ->
    io_Copy rwl rc w2 = ((size (proxy s), None), w3) ->
    rc_Close rc w3 = (Some ce, w4) ->
    derives s (Failed (Some rwl) (Errorf "Close: %v" ce))
      (snd (destroyReadWriteLease rwl
              (mkState (proxy s) w4
                 (log s ++ [Enter_getContents; Call_NewFile; Call_f;
                            Call_Copy rwl rc; Call_Close rc]))))
| derives_filled rwl w1 rc w2 w3 w4 :
    NewFile (world s) = (inl rwl, w1) ->
    f w1 = (inl rc, w2) ->
    io_Copy rwl rc w2 = ((size (proxy s), None), w3) ->
    rc_Close rc w3 = (None, w4) ->
    derives s (Filled rwl)
      (mkState (proxy s) w4
         (log s ++ [Enter_getContents; Call_NewFile; Call_f;
                    Call_Copy rwl rc; Call_Close rc])).

(** The errors [getContents] makes after the leaser gave a lease. *)
Definition primary (sz : Z) (e : error) : Prop :=
  (exists x, e = Errorf "User function: %v" x) \/
  (exists x, e = Errorf "Copy: %v" x) \/
  (exists copied, copied <> sz /\
     e = ErrorfCopied "Copied %v bytes; expected %v" copied sz) \/
  (exists x, e = Errorf "Close: %v" x).

Inductive op : Type :=
| OpAccess (a : accessor)
| OpSize
| OpUpgrade
| OpDestroy.

Inductive answer : Type :=
| AnsAccess (r : Z * option error)
| AnsSize (n : Z)
| AnsUpgrade (r : option RWL * option error)
| AnsDestroy.

Definition exec (o : op) : M answer :=
  match o with
  | OpAccess a => r <- access a ;; ret (AnsAccess r)
  | OpSize => n <- Size ;; ret (AnsSize n)
  | OpUpgrade => r <- Upgrade ;; ret (AnsUpgrade r)
  | OpDestroy => Destroy ;;; ret AnsDestroy
  end.

Fixpoint run (ops : list op) : M (list answer) :=
  match ops with
  | [] => ret []
  | o :: rest => a <- exec o ;; l <- run rest ;; ret (a :: l)
  end.

Definition is_Destroy (o : op) : bool :=
  match o with OpDestroy => true | _ => false end.

(** The state with another content of the slot. *)
Definition with_wrapped (o : option RL) (s : state) : state :=
  snd (set_wrapped o s).

(** What [Destroy] logs for a slot. *)
Definition revokes (o : option RL) : list event :=
  match o with
  | Some w => [Call_Revoke w]
  | None => []
  end.

(** ** Reading the log *)
Definition is_getContents (e : event) : bool :=
  match e with Enter_getContents => true | _ => false end.

Definition is_f (e : event) : bool :=
  match e with Call_f => true | _ => false end.

Definition is_Close (e : event) : bool :=
  match e with Call_Close _ => true | _ => false end.

Definition is_cleanup (e : event) : bool :=
  match e with
  | Call_Downgrade _ | Call_Revoke _ | Log_Printf _ _ => true
  | _ => false
  end.

Definition count (sel : event -> bool) (l : list event) : nat :=
  List.length (filter sel l).

(** Events that are neither a run of the helper nor a call of the content
    function. *)
Definition quiet (tr : list event) : Prop :=
  count is_getContents tr = 0%nat /\ count is_f tr = 0%nat.

Definition is_Copy (e : event) : bool :=
  match e with Call_Copy _ _ => true | _ => false end.

(** The calls that can end the life of the proxy. *)
Definition retires (o : op) : bool :=
  match o with OpUpgrade | OpDestroy => true | _ => false end.

(** The state with the flag set, as the deferred function of [Upgrade]
    leaves it. *)
Definition retired (s : state) : state := snd (set_revoked true s).

End Proxy.

(** ** A scripted world

    Concrete collaborators, to run the proxy on: the world is a script that
    says how each collaborator answers, and no call changes it.  Leases and
    streams are numbers, a slice is its length. *)
Record script : Type := mkScript {
  held_revoked : bool;
  newfile_err : option error;
  f_err : option error;
  copy_out : Z * option error;
  close_err : option error;
  downgrade_err : option error
}.

Inductive ctx : Type := Background | Cancelled.

#[global] Instance scripted_leaser : FileLeaser script nat := {|
  NewFile w :=
    (match newfile_err w with Some e => inr e | None => inl 1%nat end, w)
|}.

#[global] Instance scripted_ReadLease : ReadLease script nat nat nat := {|
  rl_Read _ p w :=
    (if held_revoked w then (0%Z, Some RevokedError)
     else (Z.of_nat p, None), w);
  rl_Seek _ offset _ w :=
    (if held_revoked w then (0%Z, Some RevokedError) else (offset, None), w);
  rl_ReadAt _ p _ w :=
    (if held_revoked w then (0%Z, Some RevokedError)
     else (Z.of_nat p, None), w);
  rl_Upgrade l w :=
    (if held_revoked w then inr RevokedError else inl l, w);
  rl_Revoke _ w := w
|}.

#[global] Instance scripted_ReadWriteLease
  : ReadWriteLease script nat nat nat := {|
  rwl_Read _ p w := ((Z.of_nat p, None), w);
  rwl_Seek _ offset _ w := ((offset, None), w);
  rwl_ReadAt _ p _ w := ((Z.of_nat p, None), w);
  rwl_Downgrade h w :=
    (match downgrade_err w with Some e => inr e | None => inl h end, w)
|}.

#[global] Instance scripted_ReadCloser : ReadCloser script nat nat := {|
  io_Copy _ _ w := (copy_out w, w);
  rc_Close _ w := (close_err w, w)
|}.

Definition scripted_f (w : script) : (nat + error) * script :=
  (match f_err w with Some e => inr e | None => inl 2%nat end, w).

(** A proxy of 1024 bytes in a world where everything works and the source
    gives 1024 bytes. *)
Definition all_well : script :=
  mkScript false None None (1024%Z, None) None None.

Definition scripted (p : @ReadProxy nat) (w : script)
  : @state script nat nat nat :=
  mkState p w [].

(** The held lease was revoked; getting the contents anew works. *)
Definition held_lease_revoked : script :=
  mkScript true None None (1024%Z, None) None None.

(** The held lease was revoked and the leaser has no space. *)
Definition no_space : script :=
  mkScript true (Some (Foreign "no space")) None (1024%Z, None) None None.

(** The source gives 1000 bytes. *)
Definition short_source : script :=
  mkScript false None None (1000%Z, None) None None.

(** The source gives 1024 bytes and its stream fails to close. *)
Definition close_fails : script :=
  mkScript false None None (1024%Z, None) (Some (Foreign "close")) None.

(** The held lease was revoked, and no lease can be downgraded. *)
Definition downgrade_fails : script :=
  mkScript true None None (1024%Z, None) None (Some (Foreign "downgrade")).

(** Proxies of 1024 bytes: with an empty slot, holding lease 7, and revoked
    while holding lease 7. *)
Definition fresh : @ReadProxy nat := NewReadProxy 1024.
Definition cached : @ReadProxy nat := mkReadProxy 1024 false (Some 7%nat).
Definition dead : @ReadProxy nat := mkReadProxy 1024 true (Some 7%nat).

(** A read of 100 bytes. *)
Definition read100 : @accessor ctx nat := AccRead Background 100%nat.

(** The content function fails. *)
Definition source_fails : script :=
  mkScript false None (Some (Foreign "origin down")) (1024%Z, None) None None.

(** A seek to offset 10 from the start. *)
Definition seek10 : @accessor ctx nat := AccSeek Background 10 0.

(** * Properties *)

Section Properties.

Context {World Ctx Slice RL RWL RC : Type}.
Context {leaser : FileLeaser World RWL}.
Context {RLops : ReadLease World Slice RL RWL}.
Context {RWLops : ReadWriteLease World Slice RL RWL}.
Context {RCops : ReadCloser World RWL RC}.
Variable f : World -> (RC + error) * World.

Abbreviation state := (@state World RL RWL RC).
Abbreviation event := (@event RL RWL RC).
Abbreviation accessor := (@accessor Ctx Slice).
Abbreviation op := (@op Ctx Slice).

Ltac unfold_monad :=
  unfold bind, ret, emit, extern, this, set_revoked, set_wrapped.

Ltac norm_log := repeat rewrite <- app_assoc; cbn [app].

(** ** Counting in a log *)

Lemma count_app (sel : event -> bool) (l1 l2 : list event) :
  count sel (l1 ++ l2) = (count sel l1 + count sel l2)%nat.
Proof.
  unfold count. rewrite filter_app. apply length_app.
Qed.

(** ** Sequencing *)

Lemma bind_run {A B : Type} (m : M A) (k : A -> M B) (s : state) :
  bind m k s = k (fst (m s)) (snd (m s)).
Proof.
  unfold bind. destruct (m s); reflexivity.
Qed.

(** ** The helpers *)

Lemma destroyReadWriteLease_run (rwl : RWL) (s0 : state) :
  destroyReadWriteLease rwl s0 = (tt, snd (destroyReadWriteLease rwl s0)).
Proof.
  destruct (destroyReadWriteLease rwl s0) as [[] s']. reflexivity.
Qed.

Lemma destroyReadWriteLease_revokes (rwl : RWL) (s0 : state) rl w' :
  rwl_Downgrade rwl (world s0) = (inl rl, w') ->
  snd (destroyReadWriteLease rwl s0)
  = mkState (proxy s0) (rl_Revoke rl w')
            (log s0 ++ [Call_Downgrade rwl; Call_Revoke rl]).
Proof.
  intros H. unfold destroyReadWriteLease. unfold_monad. rewrite H. cbn.
  norm_log. reflexivity.
Qed.

Lemma destroyReadWriteLease_logs (rwl : RWL) (s0 : state) de w' :
  rwl_Downgrade rwl (world s0) = (inr de, w') ->
  snd (destroyReadWriteLease rwl s0)
  = mkState (proxy s0) w'
            (log s0 ++ [Call_Downgrade rwl;
                        Log_Printf "Error destroying read/write lease: %v"
                                   (Errorf "Downgrade: %v" de)]).
Proof.
  intros H. unfold destroyReadWriteLease. unfold_monad. rewrite H. cbn.
  norm_log. reflexivity.
Qed.

(** Cleanup touches neither the proxy nor the helper and the source. *)
Lemma destroyReadWriteLease_frame (rwl : RWL) (s0 : state) :
  proxy (snd (destroyReadWriteLease rwl s0)) = proxy s0 /\
  exists tr, log (snd (destroyReadWriteLease rwl s0)) = log s0 ++ tr /\
             count is_getContents tr = 0%nat /\ count is_f tr = 0%nat /\
             count is_Close tr = 0%nat.
Proof.
  destruct (rwl_Downgrade rwl (world s0)) as [[rl|de] w'] eqn:H.
  - rewrite (destroyReadWriteLease_revokes _ _ _ _ H). cbn.
    split; [reflexivity|]. eexists. split; [reflexivity|]. now cbn.
  - rewrite (destroyReadWriteLease_logs _ _ _ _ H). cbn.
    split; [reflexivity|]. eexists. split; [reflexivity|]. now cbn.
Qed.

(** Every run of [getContents] is one of the paths of [derives]. *)
Lemma getContents_derives (s : state) :
  derives f s (fst (getContents f s)) (snd (getContents f s)).
Proof.
  unfold getContents, fillContents, copyContents, closeDeferred, Size.
  unfold_monad. cbn.
  destruct (NewFile (world s)) as [[rwl|e] w1] eqn:HN; cbn.
  2:{ norm_log. now apply derives_no_file. }
  destruct (f w1) as [[rc|e] w2] eqn:Hf; cbn.
  2:{ norm_log. rewrite destroyReadWriteLease_run. cbn.
      eapply derives_no_stream; eassumption. }
  destruct (io_Copy rwl rc w2) as [[copied [e|]] w3] eqn:Hc; cbn.
  - destruct (rc_Close rc w3) as [[ce|] w4] eqn:Hx; cbn; norm_log;
      rewrite destroyReadWriteLease_run; cbn;
      eapply derives_copy_error; eassumption.
  - destruct (Z.eqb_spec copied (size (proxy s))) as [->|Hne]; cbn.
    + destruct (rc_Close rc w3) as [[ce|] w4] eqn:Hx; cbn; norm_log.
      * rewrite destroyReadWriteLease_run; cbn.
        eapply derives_close_error; eassumption.
      * eapply derives_filled; eassumption.
    + destruct (rc_Close rc w3) as [[ce|] w4] eqn:Hx; cbn; norm_log;
        rewrite destroyReadWriteLease_run; cbn;
        eapply derives_mismatch; eassumption.
Qed.

Lemma getContents_inv (s s' : state) (c : contents) :
  getContents f s = (c, s') -> derives f s c s'.
Proof.
  intros H. pose proof (getContents_derives s) as D.
  rewrite H in D. exact D.
Qed.

(** ** The content-derivation helper *)

(** C5.  When [getContents] fails after the leaser gave a lease, the lease
    is destroyed as the last thing the helper does: it is downgraded and the
    read lease revoked, or the failure to downgrade is logged and nothing
    more; the error returned is the one of the failing step, whatever the
    cleanup met, and the proxy is as before. *)
Theorem getContents_failure_destroys_lease
  (s s' : state) (w1 : World) (rwl : RWL) (o : option RWL) (e : error) :
  NewFile (world s) = (inl rwl, w1) ->
  getContents f s = (Failed o e, s') ->
  o = Some rwl /\
  primary (size (proxy s)) e /\
  proxy s' = proxy s /\
  exists (s0 : state) (tr : list event),
    log s0 = log s ++ tr /\
    count is_cleanup tr = 0%nat /\
    destroyReadWriteLease rwl s0 = (tt, s') /\
    (forall rl w', rwl_Downgrade rwl (world s0) = (inl rl, w') ->
       log s' = log s0 ++ [Call_Downgrade rwl; Call_Revoke rl] /\
       world s' = rl_Revoke rl w') /\
    (forall de w', rwl_Downgrade rwl (world s0) = (inr de, w') ->
       log s' = log s0 ++
                [Call_Downgrade rwl;
                 Log_Printf "Error destroying read/write lease: %v"
                            (Errorf "Downgrade: %v" de)] /\
       world s' = w').
Proof.
  intros HN H. apply getContents_inv in H.
  assert (cleanup : forall (s0 : state) (tr : list event),
    log s0 = log s ++ tr -> count is_cleanup tr = 0%nat ->
    proxy s0 = proxy s ->
    proxy (snd (destroyReadWriteLease rwl s0)) = proxy s /\
    exists (s1 : state) (tr1 : list event),
      log s1 = log s ++ tr1 /\ count is_cleanup tr1 = 0%nat /\
      destroyReadWriteLease rwl s1 = (tt, snd (destroyReadWriteLease rwl s0)) /\
      (forall rl w', rwl_Downgrade rwl (world s1) = (inl rl, w') ->
         log (snd (destroyReadWriteLease rwl s0))
         = log s1 ++ [Call_Downgrade rwl; Call_Revoke rl] /\
         world (snd (destroyReadWriteLease rwl s0)) = rl_Revoke rl w') /\
      (forall de w', rwl_Downgrade rwl (world s1) = (inr de, w') ->
         log (snd (destroyReadWriteLease rwl s0))
         = log s1 ++
           [Call_Downgrade rwl;
            Log_Printf "Error destroying read/write lease: %v"
                       (Errorf "Downgrade: %v" de)] /\
         world (snd (destroyReadWriteLease rwl s0)) = w')).
  { intros s0 tr Hlog Hcount Hproxy. split.
    - rewrite <- Hproxy. apply destroyReadWriteLease_frame.
    - exists s0, tr.
      split; [exact Hlog|]. split; [exact Hcount|].
      split; [apply destroyReadWriteLease_run|]. split.
      + intros rl w' Hd.
        rewrite (destroyReadWriteLease_revokes _ _ _ _ Hd). now split.
      + intros de w' Hd.
        rewrite (destroyReadWriteLease_logs _ _ _ _ Hd). now split. }
  inversion H; subst; clear H;
    match goal with
    | H1 : NewFile (world s) = _ |- _ => rewrite HN in H1; inversion H1; subst
    end.
  - split; [reflexivity|]. split; [left; eauto|].
    eapply cleanup; [reflexivity | reflexivity | reflexivity].
  - split; [reflexivity|]. split; [right; left; eauto|].
    eapply cleanup; [reflexivity | reflexivity | reflexivity].
  - split; [reflexivity|]. split; [right; right; left; eauto|].
    eapply cleanup; [reflexivity | reflexivity | reflexivity].
  - split; [reflexivity|]. split; [right; right; right; eauto|].
    eapply cleanup; [reflexivity | reflexivity | reflexivity].
Qed.

(** What [getContents] returns once the stream is open, by the answers of
    the copy and of the close. *)
Lemma getContents_copied
  (s : state) (rwl : RWL) (w1 : World) (rc : RC) (w2 : World)
  (copied : Z) (cerr : option error) (w3 : World)
  (closeErr : option error) (w4 : World) :
  NewFile (world s) = (inl rwl, w1) ->
  f w1 = (inl rc, w2) ->
  io_Copy rwl rc w2 = ((copied, cerr), w3) ->
  rc_Close rc w3 = (closeErr, w4) ->
  getContents f s =
  let s0 := mkState (proxy s) w4
              (log s ++ [Enter_getContents; Call_NewFile; Call_f;
                         Call_Copy rwl rc; Call_Close rc]) in
  let destroyed (e : error) :=
    (Failed (Some rwl) e, snd (destroyReadWriteLease rwl s0)) in
  match cerr with
  | Some e => destroyed (Errorf "Copy: %v" e)
  | None =>
      if (copied =? size (proxy s))%Z then
        match closeErr with
        | Some ce => destroyed (Errorf "Close: %v" ce)
        | None => (Filled rwl, s0)
        end
      else destroyed (ErrorfCopied "Copied %v bytes; expected %v"
                                   copied (size (proxy s)))
  end.
Proof.
  intros HN Hf Hc Hx.
  unfold getContents, fillContents, copyContents, closeDeferred, Size.
  unfold_monad. cbn. rewrite HN. cbn. rewrite Hf. cbn. rewrite Hc. cbn.
  destruct cerr as [e|]; cbn.
  - rewrite Hx. norm_log.
    destruct closeErr; cbn; now rewrite destroyReadWriteLease_run.
  - destruct (copied =? size (proxy s))%Z; cbn; rewrite Hx; norm_log.
    + destruct closeErr; cbn; [now rewrite destroyReadWriteLease_run|].
      reflexivity.
    + destruct closeErr; cbn; now rewrite destroyReadWriteLease_run.
Qed.

(** C6.  Once the content function gave a stream, the stream is closed
    exactly once, right after the copy and whatever the copy did; the first
    error wins: a copy error, else a wrong count, else the close error.  So a
    failing close is what the helper returns if and only if the copy met no
    error and gave the declared count. *)
Theorem getContents_first_error_wins
  (s : state) (rwl : RWL) (w1 : World) (rc : RC) (w2 : World)
  (copied : Z) (cerr : option error) (w3 : World)
  (closeErr : option error) (w4 : World) :
  NewFile (world s) = (inl rwl, w1) ->
  f w1 = (inl rc, w2) ->
  io_Copy rwl rc w2 = ((copied, cerr), w3) ->
  rc_Close rc w3 = (closeErr, w4) ->
  exists (c : contents) (s' : state) (tr : list event),
    getContents f s = (c, s') /\
    log s' = log s ++ [Enter_getContents; Call_NewFile; Call_f;
                       Call_Copy rwl rc; Call_Close rc] ++ tr /\
    count is_Close tr = 0%nat /\
    (forall e, cerr = Some e -> c = Failed (Some rwl) (Errorf "Copy: %v" e)) /\
    (cerr = None -> copied <> size (proxy s) ->
     c = Failed (Some rwl)
           (ErrorfCopied "Copied %v bytes; expected %v"
                         copied (size (proxy s)))) /\
    (cerr = None -> copied = size (proxy s) -> closeErr = None ->
     c = Filled rwl) /\
    (forall ce, closeErr = Some ce ->
       (c = Failed (Some rwl) (Errorf "Close: %v" ce) <->
        cerr = None /\ copied = size (proxy s))).
Proof.
  intros HN Hf Hc Hx.
  rewrite (getContents_copied _ _ _ _ _ _ _ _ _ _ HN Hf Hc Hx). cbv zeta.
  set (s0 := mkState (proxy s) w4 _).
  destruct (destroyReadWriteLease_frame rwl s0)
    as (_ & tr & Hlog & _ & _ & Hclose).
  assert (Hlog' : log (snd (destroyReadWriteLease rwl s0))
                  = log s ++ [Enter_getContents; Call_NewFile; Call_f;
                              Call_Copy rwl rc; Call_Close rc] ++ tr).
  { rewrite Hlog. subst s0. cbn [log]. now rewrite <- app_assoc. }
  destruct cerr as [e|].
  - eexists _, _, tr.
    split; [reflexivity|]. split; [exact Hlog'|]. split; [exact Hclose|].
    split; [intros e0 [= ->]; reflexivity|].
    split; [discriminate|]. split; [discriminate|].
    intros ce _. split; [discriminate | intros [[=] _]].
  - destruct (Z.eqb_spec copied (size (proxy s))) as [Heq|Hne].
    + destruct closeErr as [ce|].
      * eexists _, _, tr.
        split; [reflexivity|]. split; [exact Hlog'|]. split; [exact Hclose|].
        split; [discriminate|].
        split; [intros _ Hne; contradiction|]. split; [discriminate|].
        intros ce0 [= ->]. split; [now split | reflexivity].
      * exists (Filled rwl), s0, [].
        split; [reflexivity|]. split; [reflexivity|]. split; [reflexivity|].
        split; [discriminate|].
        split; [intros _ Hne; contradiction|]. split; [reflexivity|].
        discriminate.
    + eexists _, _, tr.
      split; [reflexivity|]. split; [exact Hlog'|]. split; [exact Hclose|].
      split; [discriminate|].
      split; [reflexivity|]. split; [intros _ Heq; contradiction|].
      intros ce _. split; [discriminate | intros [_ Heq]; contradiction].
Qed.

(** C4, as the code has it.  When the copy met no error, [getContents]
    returns an error if and only if the count differs from the declared size
    or closing the stream fails; a wrong count is always returned as the
    error that names both numbers, and the lease is then destroyed. *)
Theorem getContents_error_iff_mismatch_or_close
  (s : state) (rwl : RWL) (w1 : World) (rc : RC) (w2 : World)
  (copied : Z) (w3 : World) (closeErr : option error) (w4 : World) :
  NewFile (world s) = (inl rwl, w1) ->
  f w1 = (inl rc, w2) ->
  io_Copy rwl rc w2 = ((copied, None), w3) ->
  rc_Close rc w3 = (closeErr, w4) ->
  ((exists o e, fst (getContents f s) = Failed o e) <->
   (copied <> size (proxy s) \/ closeErr <> None)) /\
  (copied <> size (proxy s) ->
   getContents f s =
   (Failed (Some rwl)
      (ErrorfCopied "Copied %v bytes; expected %v" copied (size (proxy s))),
    snd (destroyReadWriteLease rwl
           (mkState (proxy s) w4
              (log s ++ [Enter_getContents; Call_NewFile; Call_f;
                         Call_Copy rwl rc; Call_Close rc]))))).
Proof.
  intros HN Hf Hc Hx.
  rewrite (getContents_copied _ _ _ _ _ _ _ _ _ _ HN Hf Hc Hx). cbv zeta.
  destruct (Z.eqb_spec copied (size (proxy s))) as [Heq|Hne].
  - split; [|intros Hne; contradiction].
    destruct closeErr as [ce|]; cbn [fst]; split.
    + intros _. right. discriminate.
    + intros _. eauto.
    + intros (o & e & [=]).
    + intros [Hne|Hne]; contradiction.
  - split; [|reflexivity]. cbn [fst]. split; [tauto | eauto].
Qed.

(** ** The accessors *)

(** [Read], [Seek] and [ReadAt] are the same protocol. *)
Lemma access_protocol (a : accessor) (s : state) :
  access f a s = protocol f a s.
Proof.
  destruct a; reflexivity.
Qed.

Lemma held_call_frame (a : accessor) (w : RL) (s : state) :
  proxy (snd (held_call a w s)) = proxy s /\
  exists tr, log (snd (held_call a w s)) = log s ++ tr /\ quiet tr.
Proof.
  destruct a; cbn; unfold extern;
    match goal with
    | |- context [let (_, _) := ?c in _] => destruct c
    end; cbn; (split; [reflexivity|]);
    eexists; (split; [reflexivity|]); now split.
Qed.

Lemma fresh_call_frame (a : accessor) (rwl : RWL) (s : state) :
  proxy (snd (fresh_call a rwl s)) = proxy s /\
  exists tr, log (snd (fresh_call a rwl s)) = log s ++ tr /\ quiet tr.
Proof.
  destruct a; cbn; unfold extern;
    match goal with
    | |- context [let (_, _) := ?c in _] => destruct c
    end; cbn; (split; [reflexivity|]);
    eexists; (split; [reflexivity|]); now split.
Qed.

Lemma saveContents_log (rwl : RWL) (s : state) :
  exists tr, log (snd (saveContents rwl s)) = log s ++ tr /\ quiet tr.
Proof.
  unfold saveContents. unfold_monad.
  destruct (rwl_Downgrade rwl (world s)) as [[rl|de] w']; cbn.
  - exists [Call_Downgrade rwl]. now split.
  - eexists. norm_log. split; [reflexivity|]. now split.
Qed.

(** A run of the helper is one entry and at most one call of the content
    function, and leaves the proxy alone. *)
Lemma getContents_counts (s : state) :
  proxy (snd (getContents f s)) = proxy s /\
  exists tr, log (snd (getContents f s)) = log s ++ tr /\
             count is_getContents tr = 1%nat /\ (count is_f tr <= 1)%nat.
Proof.
  pose proof (getContents_derives s) as D.
  inversion D as [ e w1 HN | rwl w1 e w2 HN Hf
                 | rwl w1 rc w2 copied e w3 closeErr w4 HN Hf Hc Hx
                 | rwl w1 rc w2 copied w3 closeErr w4 HN Hf Hc Hne Hx
                 | rwl w1 rc w2 w3 ce w4 HN Hf Hc Hx
                 | rwl w1 rc w2 w3 w4 HN Hf Hc Hx ];
    try match goal with
        | |- context [destroyReadWriteLease ?r ?s0] =>
            destruct (destroyReadWriteLease_frame r s0)
              as (Hp & tr & Hl & Hg & Hf' & _);
            rewrite Hp, Hl; cbn [proxy log]; (split; [reflexivity|]);
            rewrite <- app_assoc; eexists; (split; [reflexivity|]);
            rewrite !count_app, Hg, Hf'; cbn; lia
        end.
  - cbn. split; [reflexivity|]. eexists. split; [reflexivity|]. cbn. lia.
  - cbn. split; [reflexivity|]. eexists. split; [reflexivity|]. cbn. lia.
Qed.

Lemma recover_counts (a : accessor) (n : Z) (s : state) :
  exists tr, log (snd (recover f a n s)) = log s ++ tr /\
             count is_getContents tr = 1%nat /\ (count is_f tr <= 1)%nat.
Proof.
  unfold recover. rewrite bind_run.
  destruct (getContents_counts s) as (_ & tr & Hl & Hg & Hf).
  destruct (fst (getContents f s)) as [rwl | o e].
  - rewrite bind_run, bind_run. cbn [ret snd].
    destruct (saveContents_log rwl (snd (fresh_call a rwl (snd (getContents f s)))))
      as (tr2 & Hl2 & Hg2 & Hf2).
    destruct (fresh_call_frame a rwl (snd (getContents f s)))
      as (_ & tr1 & Hl1 & Hg1 & Hf1).
    rewrite Hl2, Hl1, Hl. rewrite <- !app_assoc.
    eexists. split; [reflexivity|]. rewrite !count_app. lia.
  - cbn [ret snd]. exists tr. auto.
Qed.

(** C1.  On a proxy that is not revoked and holds a lease: when the held
    lease answers with a revoked error the helper runs exactly once and the
    content function is called at most once before the accessor returns; on
    any other answer neither happens, and the accessor returns what the lease
    answered. *)
Theorem refresh_once_per_invalidation
  (a : accessor) (s s1 : state) (w : RL) (r : Z * option error) :
  revoked (proxy s) = false ->
  wrapped (proxy s) = Some w ->
  held_call a w s = (r, s1) ->
  exists tr : list event,
    log (snd (access f a s)) = log s ++ tr /\
    if isRevokedErr (snd r)
    then count is_getContents tr = 1%nat /\ (count is_f tr <= 1)%nat
    else count is_getContents tr = 0%nat /\ count is_f tr = 0%nat /\
         access f a s = (r, s1).
Proof.
  intros Hrev Hw Hheld.
  rewrite access_protocol. unfold protocol. rewrite bind_run.
  cbn [this fst snd]. rewrite Hrev, Hw, bind_run, Hheld. cbn [fst snd].
  destruct (held_call_frame a w s) as (_ & tr0 & Hl0 & Hg0 & Hf0).
  rewrite Hheld in Hl0. cbn [snd] in Hl0.
  destruct r as [n err]. cbn [snd].
  destruct (isRevokedErr err).
  - destruct (recover_counts a n s1) as (tr & Hl & Hg & Hf).
    exists (tr0 ++ tr). rewrite Hl, Hl0, <- app_assoc.
    split; [reflexivity|]. rewrite !count_app. lia.
  - exists tr0. cbn [ret snd]. split; [exact Hl0|]. auto.
Qed.

(** What an accessor does with a lease in the slot of a proxy that is not
    revoked: on a revoked error of that lease it runs the helper once, on
    any other answer it returns the answer. *)
Lemma access_with_held_lease
  (a : accessor) (s s1 : state) (w : RL) (r : Z * option error) :
  revoked (proxy s) = false ->
  wrapped (proxy s) = Some w ->
  held_call a w s = (r, s1) ->
  if isRevokedErr (snd r)
  then exists tr : list event,
         log (snd (access f a s)) = log s ++ tr /\
         count is_getContents tr = 1%nat
  else access f a s = (r, s1).
Proof.
  intros Hrev Hw Hheld.
  rewrite access_protocol. unfold protocol. rewrite bind_run.
  cbn [this fst snd]. rewrite Hrev, Hw, bind_run, Hheld. cbn [fst snd].
  destruct (held_call_frame a w s) as (_ & tr0 & Hl0 & Hg0 & _).
  rewrite Hheld in Hl0. cbn [snd] in Hl0.
  destruct r as [n err]. cbn [snd].
  destruct (isRevokedErr err); [|reflexivity].
  destruct (recover_counts a n s1) as (tr & Hl & Hg & _).
  exists (tr0 ++ tr). rewrite Hl, Hl0, <- app_assoc.
  split; [reflexivity|]. rewrite count_app. lia.
Qed.

(** C2, as the code has it.  When the held lease answers with a revoked
    error and [getContents] then fails, the accessor returns the error
    wrapped, with the count the held lease gave, and the proxy is left as it
    was: not revoked, and the slot still holds that lease.  So a later
    accessor call from there asks that lease first: if it answers with a
    revoked error again the helper runs again, once; on any other answer the
    call returns that answer and the helper does not run. *)
Theorem failed_refresh_keeps_proxy
  (a : accessor) (s s1 s2 : state) (w : RL) (n : Z) (err : option error)
  (o : option RWL) (e : error) :
  revoked (proxy s) = false ->
  wrapped (proxy s) = Some w ->
  held_call a w s = ((n, err), s1) ->
  isRevokedErr err = true ->
  getContents f s1 = (Failed o e, s2) ->
  access f a s = ((n, Some (Errorf "getContents: %v" e)), s2) /\
  proxy s2 = proxy s /\
  wrapped (proxy s2) = Some w /\
  revoked (proxy s2) = false /\
  (forall (a' : accessor) (r' : Z * option error) (s3 : state),
     held_call a' w s2 = (r', s3) ->
     if isRevokedErr (snd r')
     then exists tr : list event,
            log (snd (access f a' s2)) = log s2 ++ tr /\
            count is_getContents tr = 1%nat
     else access f a' s2 = (r', s3)).
Proof.
  intros Hrev Hw Hheld Herr Hget.
  assert (Hp : proxy s2 = proxy s).
  { destruct (getContents_counts s1) as (Hp2 & _).
    destruct (held_call_frame a w s) as (Hp1 & _).
    rewrite Hget in Hp2. rewrite Hheld in Hp1. cbn [snd] in *. congruence. }
  split.
  - rewrite access_protocol. unfold protocol. rewrite bind_run.
    cbn [this fst snd]. rewrite Hrev, Hw, bind_run, Hheld. cbn [fst snd].
    rewrite Herr. unfold recover. rewrite bind_run, Hget. reflexivity.
  - rewrite Hp. split; [reflexivity|]. split; [exact Hw|].
    split; [exact Hrev|].
    intros a' r' s3 Hheld'.
    apply (access_with_held_lease a' s2 s3 w r'); [| |exact Hheld'].
    + now rewrite Hp.
    + now rewrite Hp.
Qed.

Lemma saveContents_abandons (rwl : RWL) (s : state) de w' :
  rwl_Downgrade rwl (world s) = (inr de, w') ->
  saveContents rwl s
  = (tt, mkState (proxy s) w'
           (log s ++ [Call_Downgrade rwl;
                      Log_Printf
                        "Failed to downgrade write lease (%q); abandoning."
                        de])).
Proof.
  intros H. unfold saveContents. unfold_monad. rewrite H. cbn. norm_log.
  reflexivity.
Qed.

(** C8, as the code has it.  When an accessor gets the contents anew and
    the downgrade of the filled lease then fails, the failure is logged and
    nothing else: the accessor returns what the read/write lease answered,
    and the proxy is left as it was before the call, so the slot is empty if
    it was empty and still holds the revoked lease otherwise. *)
Theorem failed_downgrade_keeps_result
  (a : accessor) (s s1 s2 s3 : state) (rwl : RWL) (r : Z * option error)
  (de : error) (w' : World) :
  revoked (proxy s) = false ->
  (wrapped (proxy s) = None /\ s1 = s \/
   exists w n err,
     wrapped (proxy s) = Some w /\ held_call a w s = ((n, err), s1) /\
     isRevokedErr err = true) ->
  getContents f s1 = (Filled rwl, s2) ->
  fresh_call a rwl s2 = (r, s3) ->
  rwl_Downgrade rwl (world s3) = (inr de, w') ->
  access f a s
  = (r, mkState (proxy s) w'
          (log s3 ++ [Call_Downgrade rwl;
                      Log_Printf
                        "Failed to downgrade write lease (%q); abandoning."
                        de])).
Proof.
  intros Hrev Hentry Hget Hfresh Hd.
  assert (Hrec : forall n, recover f a n s1
                 = (r, mkState (proxy s1) w'
                         (log s3 ++ [Call_Downgrade rwl;
                            Log_Printf
                              "Failed to downgrade write lease (%q); abandoning."
                              de]))).
  { intros n. unfold recover.
    rewrite bind_run, Hget. cbn [fst snd].
    rewrite bind_run, Hfresh. cbn [fst snd].
    rewrite bind_run, (saveContents_abandons _ _ _ _ Hd). cbn [fst snd ret].
    destruct (getContents_counts s1) as (Hp2 & _).
    destruct (fresh_call_frame a rwl s2) as (Hp3 & _).
    rewrite Hget in Hp2. rewrite Hfresh in Hp3. cbn [snd] in *.
    now rewrite Hp3, Hp2. }
  rewrite access_protocol. unfold protocol. rewrite bind_run.
  cbn [this fst snd]. rewrite Hrev.
  destruct Hentry as [[Hw ->] | (w & n & err & Hw & Hheld & Herr)]; rewrite Hw.
  - apply Hrec.
  - rewrite bind_run, Hheld. cbn [fst snd]. rewrite Herr, Hrec.
    destruct (held_call_frame a w s) as (Hp1 & _).
    rewrite Hheld in Hp1. cbn [snd] in Hp1. now rewrite Hp1.
Qed.

(** ** Upgrade and Destroy *)

(** C7.  On a proxy that is not revoked, [Upgrade] leaves it revoked if and
    only if it returns no error, and then it returns a lease; the size and
    the slot are left alone. *)
Theorem Upgrade_revokes_iff_success
  (s s' : state) (rwl : option RWL) (err : option error) :
  revoked (proxy s) = false ->
  Upgrade f s = ((rwl, err), s') ->
  (revoked (proxy s') = true <-> err = None) /\
  (err = None -> exists h, rwl = Some h) /\
  size (proxy s') = size (proxy s) /\
  wrapped (proxy s') = wrapped (proxy s).
Proof.
  intros Hrev. unfold Upgrade. cbv zeta.
  set (anew := bind (getContents f) _).
  assert (Hanew : forall s0 : state,
            proxy (snd (anew s0)) = proxy s0 /\
            (snd (fst (anew s0)) = None ->
             exists h, fst (fst (anew s0)) = Some h)).
  { intros s0. subst anew. rewrite bind_run.
    destruct (getContents_counts s0) as (Hp & _).
    destruct (fst (getContents f s0)); cbn; split; eauto; discriminate. }
  rewrite bind_run. cbn [this fst snd]. rewrite Hrev, bind_run.
  match goal with
  | |- context [fst (?m s)] => set (stage := m s)
  end.
  assert (Hstage : proxy (snd stage) = proxy s /\
                   (snd (fst stage) = None ->
                    exists h, fst (fst stage) = Some h)).
  { subst stage. destruct (wrapped (proxy s)) as [w|]; [|apply Hanew].
    rewrite bind_run.
    destruct (extern (Call_rl_Upgrade w) (rl_Upgrade w) s)
      as [[h | e] s0] eqn:Hup;
      assert (Hp0 : proxy s0 = proxy s)
        by (unfold extern in Hup;
            destruct (rl_Upgrade w (world s)); now inversion Hup);
      cbn [fst snd].
    - cbn. split; eauto.
    - destruct (isRevokedErr (Some e)).
      + rewrite <- Hp0. apply Hanew.
      + cbn. split; [exact Hp0 | discriminate]. }
  destruct Hstage as (Hp & Hsome).
  destruct stage as [[rwl0 err0] s1]. cbn [fst snd] in *.
  rewrite bind_run. destruct err0 as [e|]; cbn; intros [= <- <- <-]; cbn.
  - rewrite Hp, Hrev. repeat split; discriminate.
  - rewrite Hp. repeat split; auto.
Qed.

(** ** A revoked proxy *)

Lemma access_dead (a : accessor) (s : state) :
  revoked (proxy s) = true ->
  access f a s = ((0%Z, Some RevokedError), s).
Proof.
  intros H. rewrite access_protocol. unfold protocol.
  rewrite bind_run. cbn [this fst snd]. now rewrite H.
Qed.

Lemma Upgrade_dead (s : state) :
  revoked (proxy s) = true ->
  Upgrade f s = ((None, Some RevokedError), s).
Proof.
  intros H. unfold Upgrade. cbv zeta.
  rewrite bind_run. cbn [this fst snd]. now rewrite H.
Qed.

Lemma Destroy_dead (s : state) :
  revoked (proxy s) = true ->
  Destroy s
  = (tt, mkState (proxy s)
           (match wrapped (proxy s) with
            | Some w => rl_Revoke w (world s)
            | None => world s
            end)
           (log s ++ revokes (wrapped (proxy s)))).
Proof.
  destruct s as [[sz rv [w|]] wd lg]; cbn; intros ->;
    unfold Destroy; unfold_monad; cbn; rewrite ?app_nil_r; reflexivity.
Qed.

(** One call on a revoked proxy: the proxy stays as it is, and only
    [Destroy] does anything, on the lease in the slot. *)
Lemma exec_dead (o : op) (s : state) :
  revoked (proxy s) = true ->
  proxy (snd (exec f o s)) = proxy s /\
  log (snd (exec f o s))
  = log s ++ (if is_Destroy o then revokes (wrapped (proxy s)) else []) /\
  (is_Destroy o = false ->
   forall x, exec f o (with_wrapped x s)
             = (fst (exec f o s), with_wrapped x s) /\
             snd (exec f o s) = s).
Proof.
  intros H. destruct o as [a | | |]; cbn [is_Destroy].
  - assert (E : forall s0 : state, revoked (proxy s0) = true ->
                exec f (OpAccess a) s0
                = (AnsAccess (0%Z, Some RevokedError), s0)).
    { intros s0 H0. cbn [exec]. now rewrite bind_run, (access_dead a s0 H0). }
    rewrite (E s H). cbn [fst snd]. rewrite app_nil_r.
    split; [reflexivity|]. split; [reflexivity|]. intros _ x.
    rewrite (E (with_wrapped x s) H). now split.
  - rewrite app_nil_r.
    split; [reflexivity|]. split; [reflexivity|]. intros _ x. now split.
  - assert (E : forall s0 : state, revoked (proxy s0) = true ->
                exec f (OpUpgrade : op) s0
                = (AnsUpgrade (None, Some RevokedError), s0)).
    { intros s0 H0. cbn [exec]. now rewrite bind_run, (Upgrade_dead s0 H0). }
    rewrite (E s H). cbn [fst snd]. rewrite app_nil_r.
    split; [reflexivity|]. split; [reflexivity|]. intros _ x.
    rewrite (E (with_wrapped x s) H). now split.
  - cbn [exec]. rewrite !bind_run, (Destroy_dead s H). cbn.
    split; [reflexivity|]. split; [reflexivity|]. discriminate.
Qed.

Lemma run_cons (o : op) (rest : list op) (s : state) :
  run f (o :: rest) s
  = (fst (exec f o s) :: fst (run f rest (snd (exec f o s))),
     snd (run f rest (snd (exec f o s)))).
Proof.
  cbn [run]. now rewrite !bind_run.
Qed.

Lemma run_dead (ops : list op) :
  forall s : state,
    revoked (proxy s) = true ->
    proxy (snd (run f ops s)) = proxy s /\
    log (snd (run f ops s))
    = log s ++
      flat_map (fun o => if is_Destroy o then revokes (wrapped (proxy s))
                         else []) ops.
Proof.
  induction ops as [|o rest IH]; intros s H.
  - cbn. now rewrite app_nil_r.
  - rewrite run_cons. cbn [snd flat_map].
    destruct (exec_dead o s H) as (Hp & Hl & _).
    assert (H' : revoked (proxy (snd (exec f o s))) = true)
      by now rewrite Hp.
    destruct (IH _ H') as (Hp' & Hl').
    rewrite Hp', Hl', Hl, Hp, <- app_assoc. now split.
Qed.

Lemma run_dead_frame (ops : list op) :
  forall s : state,
    revoked (proxy s) = true ->
    forallb (fun o => negb (is_Destroy o)) ops = true ->
    forall x, run f ops (with_wrapped x s)
              = (fst (run f ops s), with_wrapped x s) /\
              snd (run f ops s) = s.
Proof.
  induction ops as [|o rest IH]; intros s H Hops x.
  - now cbn.
  - cbn [forallb] in Hops. apply andb_prop in Hops as [Ho Hrest].
    apply negb_true_iff in Ho.
    destruct (exec_dead o s H) as (_ & _ & Hq).
    destruct (Hq Ho x) as (Hx & Hs).
    rewrite !run_cons, Hx, Hs. cbn [fst snd].
    destruct (IH s H Hrest x) as (Hx' & Hs').
    now rewrite Hx', Hs'.
Qed.

(** C3.  The flag never goes back: after any calls on a revoked proxy it
    is still revoked.  And on a revoked proxy [Read], [Seek], [ReadAt] and
    [Upgrade] return a [RevokedError] from a state that is the one they
    started in: no field changed, no collaborator called. *)
Theorem revoked_is_terminal (s : state) (ops : list op) :
  revoked (proxy s) = true ->
  revoked (proxy (snd (run f ops s))) = true /\
  (forall (ctx : Ctx) (p : Slice),
     Read f ctx p s = ((0%Z, Some RevokedError), s)) /\
  (forall (ctx : Ctx) (offset whence : Z),
     Seek (Slice := Slice) f ctx offset whence s
     = ((0%Z, Some RevokedError), s)) /\
  (forall (ctx : Ctx) (p : Slice) (off : Z),
     ReadAt f ctx p off s = ((0%Z, Some RevokedError), s)) /\
  Upgrade f s = ((None, Some RevokedError), s).
Proof.
  intros H. split.
  - destruct (run_dead ops s H) as (Hp & _). now rewrite Hp.
  - split; [intros ctx p; exact (access_dead (AccRead ctx p) s H)|].
    split; [intros ctx offset whence;
            exact (access_dead (AccSeek ctx offset whence) s H)|].
    split; [intros ctx p off; exact (access_dead (AccReadAt ctx p off) s H)|].
    exact (Upgrade_dead s H).
Qed.

(** C9, as the code has it.  Once the proxy is revoked no call replaces the
    slot or changes the flag, and [Read], [Seek], [ReadAt], [Size] and
    [Upgrade] do not look at the slot: they answer the same and leave the
    same state whatever it holds.  [Destroy] still reads it: each [Destroy]
    revokes the lease in the slot once more, and that is all that
    happens. *)
Theorem revoked_slot_only_read_by_Destroy (ops : list op) (s : state) :
  revoked (proxy s) = true ->
  proxy (snd (run f ops s)) = proxy s /\
  log (snd (run f ops s))
  = log s ++
    flat_map (fun o => if is_Destroy o then revokes (wrapped (proxy s))
                       else []) ops /\
  (forallb (fun o => negb (is_Destroy o)) ops = true ->
   forall x, run f ops (with_wrapped x s)
             = (fst (run f ops s), with_wrapped x s) /\
             snd (run f ops s) = s).
Proof.
  intros H. destruct (run_dead ops s H) as (Hp & Hl).
  split; [exact Hp|]. split; [exact Hl|].
  intros Hops x. exact (run_dead_frame ops s H Hops x).
Qed.

(** C10, at the code.  The context given to an accessor changes nothing:
    the accessor is the same function of the state for any two contexts, so
    nothing of the context reaches [getContents] or the content function,
    which takes no argument. *)
Theorem accessors_ignore_context (c1 c2 : Ctx) :
  (forall p : Slice, Read f c1 p = Read f c2 p) /\
  (forall offset whence : Z,
     Seek (Slice := Slice) f c1 offset whence = Seek f c2 offset whence) /\
  (forall (p : Slice) (off : Z), ReadAt f c1 p off = ReadAt f c2 p off).
Proof.
  split; [|split]; reflexivity.
Qed.

(** * Further properties of the code *)

(** ** What a call does to the fields *)

Lemma saveContents_keeps (rwl : RWL) (s : state) rl w' :
  rwl_Downgrade rwl (world s) = (inl rl, w') ->
  saveContents rwl s
  = (tt, mkState (mkReadProxy (size (proxy s)) (revoked (proxy s)) (Some rl))
           w' (log s ++ [Call_Downgrade rwl])).
Proof.
  intros H. unfold saveContents. unfold_monad. rewrite H. reflexivity.
Qed.

Lemma saveContents_fields (rwl : RWL) (s : state) :
  size (proxy (snd (saveContents rwl s))) = size (proxy s) /\
  revoked (proxy (snd (saveContents rwl s))) = revoked (proxy s) /\
  (wrapped (proxy (snd (saveContents rwl s))) = wrapped (proxy s) \/
   exists rl, wrapped (proxy (snd (saveContents rwl s))) = Some rl).
Proof.
  destruct (rwl_Downgrade rwl (world s)) as [[rl|de] w'] eqn:H.
  - rewrite (saveContents_keeps _ _ _ _ H). cbn. eauto.
  - rewrite (saveContents_abandons _ _ _ _ H). cbn. auto.
Qed.

Lemma recover_fields (a : accessor) (n : Z) (s : state) :
  size (proxy (snd (recover f a n s))) = size (proxy s) /\
  revoked (proxy (snd (recover f a n s))) = revoked (proxy s) /\
  (wrapped (proxy (snd (recover f a n s))) = wrapped (proxy s) \/
   exists rl, wrapped (proxy (snd (recover f a n s))) = Some rl).
Proof.
  unfold recover. rewrite bind_run.
  destruct (getContents_counts s) as (Hp & _).
  destruct (fst (getContents f s)) as [rwl | o e].
  - rewrite bind_run, bind_run. cbn [ret snd].
    destruct (fresh_call_frame a rwl (snd (getContents f s))) as (Hp1 & _).
    destruct (saveContents_fields rwl
                (snd (fresh_call a rwl (snd (getContents f s)))))
      as (Hs & Hr & Hw).
    rewrite Hs, Hr, Hp1, Hp. split; [reflexivity|]. split; [reflexivity|].
    destruct Hw as [Hw | Hw]; [left | right; exact Hw].
    now rewrite Hw, Hp1, Hp.
  - cbn [ret snd]. rewrite Hp. auto.
Qed.

Lemma access_fields (a : accessor) (s : state) :
  size (proxy (snd (access f a s))) = size (proxy s) /\
  revoked (proxy (snd (access f a s))) = revoked (proxy s) /\
  (wrapped (proxy (snd (access f a s))) = wrapped (proxy s) \/
   exists rl, wrapped (proxy (snd (access f a s))) = Some rl).
Proof.
  rewrite access_protocol. unfold protocol. rewrite bind_run.
  cbn [this fst snd].
  destruct (revoked (proxy s)) eqn:Hrev; [cbn; auto|].
  destruct (wrapped (proxy s)) as [w|] eqn:Hw.
  - rewrite bind_run.
    destruct (held_call_frame a w s) as (Hp & _).
    destruct (held_call a w s) as [[n err] s1]. cbn [fst snd] in *.
    destruct (isRevokedErr err).
    + destruct (recover_fields a n s1) as (Hs & Hr & Hx).
      rewrite Hs, Hr, Hp, Hrev. split; [reflexivity|]. split; [reflexivity|].
      destruct Hx as [Hx | Hx]; [left | right; exact Hx].
      now rewrite Hx, Hp.
    + cbn. rewrite Hp. auto.
  - destruct (recover_fields a 0%Z s) as (Hs & Hr & Hx).
    rewrite Hs, Hr, Hrev. split; [reflexivity|]. split; [reflexivity|].
    destruct Hx as [Hx | Hx]; [left | right; exact Hx].
    now rewrite Hx.
Qed.

(** The paths of [Upgrade] on a proxy that is not revoked: through the
    held lease, or through [getContents]. *)
Lemma Upgrade_held (s : state) (w : RL) (r : RWL + error) (w1 : World) :
  revoked (proxy s) = false ->
  wrapped (proxy s) = Some w ->
  rl_Upgrade w (world s) = (r, w1) ->
  isRevokedErr (match r with inl _ => None | inr e => Some e end) = false ->
  Upgrade f s
  = match r with
    | inl rwl =>
        ((Some rwl, None),
         retired (mkState (proxy s) w1 (log s ++ [Call_rl_Upgrade w])))
    | inr e =>
        ((None, Some e), mkState (proxy s) w1 (log s ++ [Call_rl_Upgrade w]))
    end.
Proof.
  intros Hrev Hw Hup Herr. unfold Upgrade. cbv zeta.
  rewrite bind_run. cbn [this fst snd]. rewrite Hrev, Hw.
  assert (Hcall : extern (Call_rl_Upgrade w) (rl_Upgrade w) s
                  = (r, mkState (proxy s) w1 (log s ++ [Call_rl_Upgrade w])))
    by (unfold extern; now rewrite Hup).
  rewrite bind_run, bind_run, Hcall. cbn [fst snd]. destruct r as [rwl | e].
  - reflexivity.
  - rewrite Herr. reflexivity.
Qed.

Lemma Upgrade_anew (s s1 : state) :
  revoked (proxy s) = false ->
  (wrapped (proxy s) = None /\ s1 = s \/
   exists w e w1,
     wrapped (proxy s) = Some w /\ rl_Upgrade w (world s) = (inr e, w1) /\
     isRevokedErr (Some e) = true /\
     s1 = mkState (proxy s) w1 (log s ++ [Call_rl_Upgrade w])) ->
  Upgrade f s
  = match fst (getContents f s1) with
    | Filled rwl => ((Some rwl, None), retired (snd (getContents f s1)))
    | Failed o e =>
        ((o, Some (Errorf "getContents: %v" e)), snd (getContents f s1))
    end.
Proof.
  intros Hrev Hentry. unfold Upgrade. cbv zeta.
  rewrite bind_run. cbn [this fst snd]. rewrite Hrev.
  destruct Hentry as [[Hw ->] | (w & e & w1 & Hw & Hup & Herr & ->)];
    rewrite Hw.
  - rewrite bind_run, bind_run.
    destruct (fst (getContents f s)); reflexivity.
  - assert (Hcall : extern (Call_rl_Upgrade w) (rl_Upgrade w) s
                    = (inr e,
                       mkState (proxy s) w1 (log s ++ [Call_rl_Upgrade w])))
      by (unfold extern; now rewrite Hup).
    rewrite bind_run, bind_run, Hcall. cbn [fst snd].
    rewrite Herr, bind_run.
    match goal with
    | |- context [getContents f ?s0] =>
        destruct (fst (getContents f s0)); reflexivity
    end.
Qed.

Lemma Upgrade_anew_fields (s1 : state) :
  size (proxy (snd
    match fst (getContents f s1) with
    | Filled rwl => ((Some rwl, @None error), retired (snd (getContents f s1)))
    | Failed o e =>
        ((o, Some (Errorf "getContents: %v" e)), snd (getContents f s1))
    end)) = size (proxy s1) /\
  wrapped (proxy (snd
    match fst (getContents f s1) with
    | Filled rwl => ((Some rwl, @None error), retired (snd (getContents f s1)))
    | Failed o e =>
        ((o, Some (Errorf "getContents: %v" e)), snd (getContents f s1))
    end)) = wrapped (proxy s1).
Proof.
  destruct (getContents_counts s1) as (Hp & _).
  destruct (fst (getContents f s1)); unfold retired, set_revoked;
    cbn [snd proxy size wrapped]; now rewrite Hp.
Qed.

Lemma Upgrade_fields (s : state) :
  size (proxy (snd (Upgrade f s))) = size (proxy s) /\
  wrapped (proxy (snd (Upgrade f s))) = wrapped (proxy s).
Proof.
  destruct (revoked (proxy s)) eqn:Hrev.
  - now rewrite (Upgrade_dead s Hrev).
  - destruct (wrapped (proxy s)) as [w|] eqn:Hw.
    + destruct (rl_Upgrade w (world s)) as [r w1] eqn:Hup.
      destruct (isRevokedErr (match r with inl _ => None | inr e => Some e end))
        eqn:Herr.
      * destruct r as [rwl | e]; [discriminate|].
        rewrite (Upgrade_anew s _ Hrev
                   (or_intror (ex_intro _ w (ex_intro _ e (ex_intro _ w1
                      (conj Hw (conj Hup (conj Herr eq_refl)))))))).
        match goal with
        | |- context [getContents f ?s1] =>
            destruct (Upgrade_anew_fields s1) as (Hs1 & Hw1)
        end.
        rewrite Hs1, Hw1. cbn [proxy]. now rewrite Hw.
      * rewrite (Upgrade_held s w r w1 Hrev Hw Hup Herr).
        destruct r; cbn; now rewrite Hw.
    + rewrite (Upgrade_anew s s Hrev (or_introl (conj Hw eq_refl))).
      destruct (Upgrade_anew_fields s) as (Hs1 & Hw1).
      rewrite Hs1, Hw1. now rewrite Hw.
Qed.

Lemma Destroy_run (s : state) :
  Destroy s
  = (tt, mkState (mkReadProxy (size (proxy s)) true (wrapped (proxy s)))
           (match wrapped (proxy s) with
            | Some w => rl_Revoke w (world s)
            | None => world s
            end)
           (log s ++ revokes (wrapped (proxy s)))).
Proof.
  unfold Destroy. unfold_monad. cbn.
  destruct (wrapped (proxy s)); cbn; rewrite ?app_nil_r; reflexivity.
Qed.

Lemma exec_fields (o : op) (s : state) :
  size (proxy (snd (exec f o s))) = size (proxy s) /\
  (wrapped (proxy (snd (exec f o s))) = wrapped (proxy s) \/
   exists rl, wrapped (proxy (snd (exec f o s))) = Some rl) /\
  (retires o = false ->
   revoked (proxy (snd (exec f o s))) = revoked (proxy s)).
Proof.
  destruct o as [a | | |]; cbn [exec retires].
  - rewrite bind_run. cbn [ret snd].
    destruct (access_fields a s) as (Hs & Hr & Hw). auto.
  - cbn. auto.
  - rewrite bind_run. cbn [ret snd].
    destruct (Upgrade_fields s) as (Hs & Hw).
    split; [exact Hs|]. split; [left; exact Hw | discriminate].
  - rewrite bind_run, Destroy_run. cbn.
    split; [reflexivity|]. split; [now left | discriminate].
Qed.

Lemma run_fields (ops : list op) :
  forall s : state,
    size (proxy (snd (run f ops s))) = size (proxy s) /\
    (wrapped (proxy s) <> None ->
     wrapped (proxy (snd (run f ops s))) <> None) /\
    (forallb (fun o => negb (retires o)) ops = true ->
     revoked (proxy (snd (run f ops s))) = revoked (proxy s)).
Proof.
  induction ops as [|o rest IH]; intros s.
  - cbn. auto.
  - rewrite run_cons. cbn [snd forallb].
    destruct (exec_fields o s) as (Hs & Hw & Hr).
    destruct (IH (snd (exec f o s))) as (Hs' & Hw' & Hr').
    split; [now rewrite Hs', Hs|]. split.
    + intros Hne. apply Hw'.
      destruct Hw as [Hw | (rl & Hw)]; rewrite Hw; [exact Hne | discriminate].
    + intros Hops. apply andb_prop in Hops as [Ho Hrest].
      apply negb_true_iff in Ho. now rewrite (Hr' Hrest), (Hr Ho).
Qed.

(** X1.  When an accessor gets the contents anew and the downgrade works,
    it returns what the read/write lease answered, error or not, and the
    slot then holds the downgraded lease; the only call after the answer is
    that downgrade. *)
Theorem refreshed_lease_is_cached
  (a : accessor) (s s1 s2 s3 : state) (rwl : RWL) (r : Z * option error)
  (rl : RL) (w' : World) :
  revoked (proxy s) = false ->
  (wrapped (proxy s) = None /\ s1 = s \/
   exists w n err,
     wrapped (proxy s) = Some w /\ held_call a w s = ((n, err), s1) /\
     isRevokedErr err = true) ->
  getContents f s1 = (Filled rwl, s2) ->
  fresh_call a rwl s2 = (r, s3) ->
  rwl_Downgrade rwl (world s3) = (inl rl, w') ->
  access f a s
  = (r, mkState (mkReadProxy (size (proxy s)) false (Some rl)) w'
          (log s3 ++ [Call_Downgrade rwl])).
Proof.
  intros Hrev Hentry Hget Hfresh Hd.
  assert (Hrec : forall n, recover f a n s1
                 = (r, mkState (mkReadProxy (size (proxy s1))
                                            (revoked (proxy s1)) (Some rl))
                         w' (log s3 ++ [Call_Downgrade rwl]))).
  { intros n. unfold recover.
    rewrite bind_run, Hget. cbn [fst snd].
    rewrite bind_run, Hfresh. cbn [fst snd].
    rewrite bind_run, (saveContents_keeps _ _ _ _ Hd). cbn [fst snd ret].
    destruct (getContents_counts s1) as (Hp2 & _).
    destruct (fresh_call_frame a rwl s2) as (Hp3 & _).
    rewrite Hget in Hp2. rewrite Hfresh in Hp3. cbn [snd] in *.
    now rewrite Hp3, Hp2. }
  rewrite access_protocol. unfold protocol. rewrite bind_run.
  cbn [this fst snd]. rewrite Hrev.
  destruct Hentry as [[Hw ->] | (w & n & err & Hw & Hheld & Herr)]; rewrite Hw.
  - now rewrite Hrec, Hrev.
  - rewrite bind_run, Hheld. cbn [fst snd]. rewrite Herr, Hrec.
    destruct (held_call_frame a w s) as (Hp1 & _).
    rewrite Hheld in Hp1. cbn [snd] in Hp1. now rewrite Hp1, Hrev.
Qed.

(** X2.  The size never changes: after any calls, [Size] still answers the
    size the proxy started with, and it changes nothing and calls
    nothing. *)
Theorem size_is_constant (ops : list op) (s : state) :
  Size (snd (run f ops s)) = (size (proxy s), snd (run f ops s)).
Proof.
  destruct (run_fields ops s) as (Hs & _).
  unfold Size. rewrite bind_run. cbn. now rewrite Hs.
Qed.

(** X3.  Only [Upgrade] and [Destroy] can retire the proxy: a sequence of
    accessor and [Size] calls leaves the flag as it was, whatever the calls
    returned. *)
Theorem only_Upgrade_and_Destroy_retire (ops : list op) (s : state) :
  forallb (fun o => negb (retires o)) ops = true ->
  revoked (proxy (snd (run f ops s))) = revoked (proxy s).
Proof.
  intros H. destruct (run_fields ops s) as (_ & _ & Hr). exact (Hr H).
Qed.

(** X4.  The slot is never emptied: once it holds a lease it holds one
    after any calls, [Upgrade] and [Destroy] included. *)
Theorem slot_is_never_emptied (ops : list op) (s : state) :
  wrapped (proxy s) <> None ->
  wrapped (proxy (snd (run f ops s))) <> None.
Proof.
  intros H. destruct (run_fields ops s) as (_ & Hw & _). exact (Hw H).
Qed.

(** X5.  [Destroy] from any state: the flag is set, size and slot are
    kept, the lease in the slot, if any, is revoked and nothing else is
    called; from then on every accessor and [Upgrade] fail with a
    [RevokedError] and change nothing. *)
Theorem Destroy_retires (s : state) :
  proxy (snd (Destroy s))
  = mkReadProxy (size (proxy s)) true (wrapped (proxy s)) /\
  log (snd (Destroy s)) = log s ++ revokes (wrapped (proxy s)) /\
  (forall a : accessor,
     access f a (snd (Destroy s))
     = ((0%Z, Some RevokedError), snd (Destroy s))) /\
  Upgrade f (snd (Destroy s))
  = ((None, Some RevokedError), snd (Destroy s)).
Proof.
  rewrite Destroy_run. cbn [snd proxy log].
  split; [reflexivity|]. split; [reflexivity|]. split.
  - intros a. now apply access_dead.
  - now apply Upgrade_dead.
Qed.

(** ** More on Upgrade *)

Lemma getContents_filled (s s' : state) (rwl : RWL) :
  getContents f s = (Filled rwl, s') ->
  proxy s' = proxy s /\
  exists rc, log s' = log s ++ [Enter_getContents; Call_NewFile; Call_f;
                                Call_Copy rwl rc; Call_Close rc].
Proof.
  intros H. apply getContents_inv in H. inversion H; subst. cbn. eauto.
Qed.

(** The three ways through [Upgrade]. *)
Lemma Upgrade_cases (s : state) :
  (revoked (proxy s) = true /\
   Upgrade f s = ((None, Some RevokedError), s)) \/
  (exists w r w1,
     revoked (proxy s) = false /\
     Upgrade f s
     = match r with
       | inl rwl =>
           ((Some rwl, None),
            retired (mkState (proxy s) w1 (log s ++ [Call_rl_Upgrade w])))
       | inr e =>
           ((None, Some e),
            mkState (proxy s) w1 (log s ++ [Call_rl_Upgrade w]))
       end) \/
  (exists (s1 : state) (tr0 : list event),
     revoked (proxy s) = false /\
     proxy s1 = proxy s /\ log s1 = log s ++ tr0 /\
     quiet tr0 /\ count is_cleanup tr0 = 0%nat /\
     Upgrade f s
     = match fst (getContents f s1) with
       | Filled rwl => ((Some rwl, None), retired (snd (getContents f s1)))
       | Failed o e =>
           ((o, Some (Errorf "getContents: %v" e)), snd (getContents f s1))
       end).
Proof.
  destruct (revoked (proxy s)) eqn:Hrev.
  - left. split; [reflexivity|]. now apply Upgrade_dead.
  - right. destruct (wrapped (proxy s)) as [w|] eqn:Hw.
    + destruct (rl_Upgrade w (world s)) as [r w1] eqn:Hup.
      destruct (isRevokedErr (match r with inl _ => None | inr e => Some e end))
        eqn:Herr.
      * destruct r as [rwl | e]; [discriminate|]. right.
        exists (mkState (proxy s) w1 (log s ++ [Call_rl_Upgrade w])),
               [Call_rl_Upgrade w].
        split; [reflexivity|]. split; [reflexivity|]. split; [reflexivity|].
        split; [now split|]. split; [reflexivity|].
        apply (Upgrade_anew s _ Hrev). right. exists w, e, w1. auto.
      * left. exists w, r, w1. split; [reflexivity|].
        now apply Upgrade_held.
    + right. exists s, []. rewrite app_nil_r.
      split; [reflexivity|]. split; [reflexivity|]. split; [reflexivity|].
      split; [now split|]. split; [reflexivity|].
      apply (Upgrade_anew s s Hrev). now left.
Qed.

Lemma Upgrade_success (s s' : state) (rwl : option RWL) :
  Upgrade f s = ((rwl, None), s') ->
  revoked (proxy s') = true /\
  exists tr, log s' = log s ++ tr /\ count is_cleanup tr = 0%nat.
Proof.
  destruct (Upgrade_cases s)
    as [(_ & E) | [(w & r & w1 & _ & E)
                  | (s1 & tr0 & _ & _ & Hl & _ & Hc & E)]];
    rewrite E.
  - discriminate.
  - destruct r as [h | e]; [|discriminate].
    intros [= <- <-]. split; [reflexivity|]. cbn. eauto.
  - destruct (getContents f s1) as [[h | o e] s2] eqn:Hg; cbn [fst snd];
      [|discriminate].
    intros [= <- <-]. split; [reflexivity|].
    destruct (getContents_filled _ _ _ Hg) as (_ & rc & Hl2).
    unfold retired, set_revoked. cbn [snd log]. rewrite Hl2, Hl, <- app_assoc.
    eexists. split; [reflexivity|]. rewrite count_app, Hc. reflexivity.
Qed.

(** X6.  After an [Upgrade] that returned no error the proxy is retired:
    every accessor and a second [Upgrade] fail with a [RevokedError], change
    nothing and call nothing. *)
Theorem successful_Upgrade_retires
  (s s' : state) (rwl : option RWL) :
  Upgrade f s = ((rwl, None), s') ->
  (forall a : accessor, access f a s' = ((0%Z, Some RevokedError), s')) /\
  Upgrade f s' = ((None, Some RevokedError), s').
Proof.
  intros H. destruct (Upgrade_success _ _ _ H) as (Hrev & _). split.
  - intros a. now apply access_dead.
  - now apply Upgrade_dead.
Qed.

(** X7.  An [Upgrade] that returned no error hands over a lease, and the
    lease is the one the held lease's [Upgrade] gave, or, when the slot was
    empty or that call answered with a revoked error, the one [getContents]
    filled; the state it leaves is the one after that call with the flag
    set, so nothing was downgraded, nothing revoked and nothing logged. *)
Theorem Upgrade_hands_over_untouched
  (s s' : state) (rwl : option RWL) :
  Upgrade f s = ((rwl, None), s') ->
  (exists tr : list event,
     log s' = log s ++ tr /\ count is_cleanup tr = 0%nat) /\
  exists h : RWL,
    rwl = Some h /\
    ((exists w w1,
        wrapped (proxy s) = Some w /\
        rl_Upgrade w (world s) = (inl h, w1) /\
        s' = retired (mkState (proxy s) w1 (log s ++ [Call_rl_Upgrade w]))) \/
     (exists s1 s2 : state,
        (wrapped (proxy s) = None /\ s1 = s \/
         exists w e w1,
           wrapped (proxy s) = Some w /\
           rl_Upgrade w (world s) = (inr e, w1) /\
           isRevokedErr (Some e) = true /\
           s1 = mkState (proxy s) w1 (log s ++ [Call_rl_Upgrade w])) /\
        getContents f s1 = (Filled h, s2) /\
        s' = retired s2)).
Proof.
  intros H. split; [exact (proj2 (Upgrade_success _ _ _ H))|].
  destruct (revoked (proxy s)) eqn:Hrev.
  { rewrite (Upgrade_dead s Hrev) in H. discriminate. }
  assert (anew : forall s1 : state,
            (wrapped (proxy s) = None /\ s1 = s \/
             exists w e w1,
               wrapped (proxy s) = Some w /\
               rl_Upgrade w (world s) = (inr e, w1) /\
               isRevokedErr (Some e) = true /\
               s1 = mkState (proxy s) w1 (log s ++ [Call_rl_Upgrade w])) ->
            exists h : RWL,
              rwl = Some h /\
              exists s2 : state,
                getContents f s1 = (Filled h, s2) /\ s' = retired s2).
  { intros s1 Hentry. rewrite (Upgrade_anew s s1 Hrev Hentry) in H.
    destruct (getContents f s1) as [[h | o e] s2]; cbn [fst snd] in H;
      [|discriminate].
    injection H as <- <-. exists h. split; [reflexivity|].
    exists s2. now split. }
  assert (Hcase : wrapped (proxy s) = None \/
                  exists w, wrapped (proxy s) = Some w)
    by (destruct (wrapped (proxy s)); eauto).
  destruct Hcase as [Hw | (w & Hw)].
  - destruct (anew s (or_introl (conj Hw eq_refl))) as (h & -> & s2 & Hg & ->).
    exists h. split; [reflexivity|]. right. exists s, s2.
    split; [now left|]. now split.
  - destruct (rl_Upgrade w (world s)) as [r w1] eqn:Hup.
    destruct (isRevokedErr (match r with inl _ => None | inr e => Some e end))
      eqn:Herr.
    + destruct r as [h0 | e]; [discriminate|].
      assert (Hentry :
                wrapped (proxy s) = None /\
                mkState (proxy s) w1 (log s ++ [Call_rl_Upgrade w]) = s \/
                exists w0 e0 w2,
                  wrapped (proxy s) = Some w0 /\
                  rl_Upgrade w0 (world s) = (inr e0, w2) /\
                  isRevokedErr (Some e0) = true /\
                  mkState (proxy s) w1 (log s ++ [Call_rl_Upgrade w])
                  = mkState (proxy s) w2 (log s ++ [Call_rl_Upgrade w0]))
        by (right; exists w, e, w1; auto).
      destruct (anew _ Hentry) as (h & -> & s2 & Hg & ->).
      exists h. split; [reflexivity|]. right.
      exists (mkState (proxy s) w1 (log s ++ [Call_rl_Upgrade w])), s2.
      split; [exact Hentry|]. now split.
    + rewrite (Upgrade_held s w r w1 Hrev Hw Hup Herr) in H.
      destruct r as [h | e]; [|discriminate].
      injection H as <- <-. exists h. split; [reflexivity|]. left.
      exists w, w1. auto.
Qed.

(** X12.  With a lease in the slot whose [Upgrade] does not answer with a
    revoked error, [Upgrade] makes that one call and no other: on success
    it returns that lease and sets the flag, the slot still holding the old
    lease; on an error it returns the error as it is, not wrapped, and the
    proxy is as before. *)
Theorem Upgrade_through_held_lease
  (s : state) (w : RL) (r : RWL + error) (w1 : World) :
  revoked (proxy s) = false ->
  wrapped (proxy s) = Some w ->
  rl_Upgrade w (world s) = (r, w1) ->
  isRevokedErr (match r with inl _ => None | inr e => Some e end) = false ->
  Upgrade f s
  = match r with
    | inl rwl =>
        ((Some rwl, None),
         mkState (mkReadProxy (size (proxy s)) true (Some w)) w1
                 (log s ++ [Call_rl_Upgrade w]))
    | inr e =>
        ((None, Some e), mkState (proxy s) w1 (log s ++ [Call_rl_Upgrade w]))
    end.
Proof.
  intros Hrev Hw Hup Herr.
  rewrite (Upgrade_held s w r w1 Hrev Hw Hup Herr).
  destruct r; [|reflexivity].
  unfold retired, set_revoked. cbn. now rewrite Hw.
Qed.

(** X13.  When [Upgrade] has to build the lease anew, because the slot is
    empty or the held lease answered with a revoked error, and
    [getContents] fails, it returns the error wrapped, together with the
    lease value [getContents] returned, and the proxy is as before: not
    revoked, slot untouched. *)
Theorem failed_Upgrade_keeps_proxy
  (s s1 s2 : state) (o : option RWL) (e : error) :
  revoked (proxy s) = false ->
  (wrapped (proxy s) = None /\ s1 = s \/
   exists w e0 w1,
     wrapped (proxy s) = Some w /\ rl_Upgrade w (world s) = (inr e0, w1) /\
     isRevokedErr (Some e0) = true /\
     s1 = mkState (proxy s) w1 (log s ++ [Call_rl_Upgrade w])) ->
  getContents f s1 = (Failed o e, s2) ->
  Upgrade f s = ((o, Some (Errorf "getContents: %v" e)), s2) /\
  proxy s2 = proxy s.
Proof.
  intros Hrev Hentry Hget.
  rewrite (Upgrade_anew s s1 Hrev Hentry), Hget. cbn [fst snd].
  split; [reflexivity|].
  destruct (getContents_counts s1) as (Hp & _). rewrite Hget in Hp.
  cbn [snd] in Hp. rewrite Hp.
  destruct Hentry as [[_ ->] | (w & e0 & w1 & _ & _ & _ & ->)]; reflexivity.
Qed.

(** ** More on getContents and on the calls made *)

(** X8.  [getContents] returns a filled lease exactly when the leaser gave
    a lease, the content function gave a stream, the copy met no error and
    gave the declared size, and the close met no error; the calls it made
    are then these four, with no cleanup, and the proxy is untouched. *)
Theorem getContents_fills_iff (s s' : state) (rwl : RWL) :
  getContents f s = (Filled rwl, s') <->
  exists w1 rc w2 w3 w4,
    NewFile (world s) = (inl rwl, w1) /\
    f w1 = (inl rc, w2) /\
    io_Copy rwl rc w2 = ((size (proxy s), None), w3) /\
    rc_Close rc w3 = (None, w4) /\
    s' = mkState (proxy s) w4
           (log s ++ [Enter_getContents; Call_NewFile; Call_f;
                      Call_Copy rwl rc; Call_Close rc]).
Proof.
  split.
  - intros H. apply getContents_inv in H.
    inversion H as [ | | | | | rwl0 w1 rc w2 w3 w4 HN Hf Hc Hx ]; subst.
    exists w1, rc, w2, w3, w4. auto.
  - intros (w1 & rc & w2 & w3 & w4 & HN & Hf & Hc & Hx & ->).
    rewrite (getContents_copied _ _ _ _ _ _ _ _ _ _ HN Hf Hc Hx). cbv zeta.
    now rewrite Z.eqb_refl.
Qed.

Lemma getContents_no_file (s : state) (e : error) (w1 : World) :
  NewFile (world s) = (inr e, w1) ->
  getContents f s
  = (Failed None (Errorf "NewFile: %v" e),
     mkState (proxy s) w1 (log s ++ [Enter_getContents; Call_NewFile])).
Proof.
  intros HN. unfold getContents. unfold_monad. cbn. rewrite HN. cbn.
  norm_log. reflexivity.
Qed.

(** X9.  When the slot is empty and the leaser cannot give a lease, an
    accessor and [Upgrade] both return the leaser's error wrapped twice,
    with a zero count or a nil lease; the content function is not called,
    nothing is cleaned up, and the proxy is as before. *)
Theorem allocation_failure_stops_early
  (a : accessor) (s : state) (e : error) (w1 : World) :
  revoked (proxy s) = false ->
  wrapped (proxy s) = None ->
  NewFile (world s) = (inr e, w1) ->
  access f a s
  = ((0%Z, Some (Errorf "getContents: %v" (Errorf "NewFile: %v" e))),
     mkState (proxy s) w1 (log s ++ [Enter_getContents; Call_NewFile])) /\
  Upgrade f s
  = ((None, Some (Errorf "getContents: %v" (Errorf "NewFile: %v" e))),
     mkState (proxy s) w1 (log s ++ [Enter_getContents; Call_NewFile])).
Proof.
  intros Hrev Hw HN. split.
  - rewrite access_protocol. unfold protocol. rewrite bind_run.
    cbn [this fst snd]. rewrite Hrev, Hw. unfold recover.
    now rewrite bind_run, (getContents_no_file _ _ _ HN).
  - rewrite (Upgrade_anew s s Hrev (or_introl (conj Hw eq_refl))).
    now rewrite (getContents_no_file _ _ _ HN).
Qed.

(** X10.  When the content function fails there is no stream: nothing is
    copied and nothing is closed.  What follows the call of the content
    function is the cleanup of the lease and nothing else: the downgrade and
    then the revoke of the read lease it gave, or the downgrade and one log
    line when it failed; the error comes back as the user function's and
    the proxy is untouched. *)
Theorem source_failure_skips_copy_and_close
  (s : state) (rwl : RWL) (w1 : World) (e : error) (w2 : World) :
  NewFile (world s) = (inl rwl, w1) ->
  f w1 = (inr e, w2) ->
  exists (s' : state) (tr : list event),
    getContents f s
    = (Failed (Some rwl) (Errorf "User function: %v" e), s') /\
    log s' = log s ++ [Enter_getContents; Call_NewFile; Call_f] ++ tr /\
    count is_Copy tr = 0%nat /\ count is_Close tr = 0%nat /\
    proxy s' = proxy s /\
    (forall rl w', rwl_Downgrade rwl w2 = (inl rl, w') ->
       tr = [Call_Downgrade rwl; Call_Revoke rl] /\
       world s' = rl_Revoke rl w') /\
    (forall de w', rwl_Downgrade rwl w2 = (inr de, w') ->
       tr = [Call_Downgrade rwl;
             Log_Printf "Error destroying read/write lease: %v"
                        (Errorf "Downgrade: %v" de)] /\
       world s' = w').
Proof.
  intros HN Hf.
  assert (E : getContents f s
              = (Failed (Some rwl) (Errorf "User function: %v" e),
                 snd (destroyReadWriteLease rwl
                        (mkState (proxy s) w2
                           (log s ++ [Enter_getContents; Call_NewFile;
                                      Call_f]))))).
  { unfold getContents, fillContents. unfold_monad. cbn.
    rewrite HN. cbn. rewrite Hf. cbn. norm_log.
    now rewrite destroyReadWriteLease_run. }
  rewrite E. clear E.
  set (s0 := mkState (proxy s) w2 _).
  destruct (rwl_Downgrade rwl w2) as [[rl|de] w'] eqn:Hd.
  - assert (Hd0 : rwl_Downgrade rwl (world s0) = (inl rl, w')) by exact Hd.
    rewrite (destroyReadWriteLease_revokes _ _ _ _ Hd0).
    exists (mkState (proxy s0) (rl_Revoke rl w')
                    (log s0 ++ [Call_Downgrade rwl; Call_Revoke rl])),
           [Call_Downgrade rwl; Call_Revoke rl].
    split; [reflexivity|]. subst s0. cbn [log proxy world].
    rewrite <- app_assoc. split; [reflexivity|].
    split; [reflexivity|]. split; [reflexivity|]. split; [reflexivity|].
    split.
    + intros rl0 w0 [= <- <-]. now split.
    + intros de w0 [=].
  - assert (Hd0 : rwl_Downgrade rwl (world s0) = (inr de, w')) by exact Hd.
    rewrite (destroyReadWriteLease_logs _ _ _ _ Hd0).
    exists (mkState (proxy s0) w'
              (log s0 ++ [Call_Downgrade rwl;
                          Log_Printf "Error destroying read/write lease: %v"
                                     (Errorf "Downgrade: %v" de)])),
           [Call_Downgrade rwl;
            Log_Printf "Error destroying read/write lease: %v"
                       (Errorf "Downgrade: %v" de)].
    split; [reflexivity|]. subst s0. cbn [log proxy world].
    rewrite <- app_assoc. split; [reflexivity|].
    split; [reflexivity|]. split; [reflexivity|]. split; [reflexivity|].
    split.
    + intros rl w0 [=].
    + intros de0 w0 [= <- <-]. now split.
Qed.

(** X11.  One call, at most one run of [getContents]: from any state an
    accessor or [Upgrade] only adds to the log, and what it adds holds at
    most one run of the helper, and a call of the content function only
    inside such a run. *)
Theorem at_most_one_derivation_per_call (s : state) :
  (forall a : accessor,
     exists tr : list event,
       log (snd (access f a s)) = log s ++ tr /\
       (count is_getContents tr <= 1)%nat /\
       (count is_f tr <= count is_getContents tr)%nat) /\
  (exists tr : list event,
     log (snd (Upgrade f s)) = log s ++ tr /\
     (count is_getContents tr <= 1)%nat /\
     (count is_f tr <= count is_getContents tr)%nat).
Proof.
  split.
  - intros a. rewrite access_protocol. unfold protocol. rewrite bind_run.
    cbn [this fst snd].
    destruct (revoked (proxy s)).
    { exists []. cbn. rewrite app_nil_r. auto. }
    destruct (wrapped (proxy s)) as [w|].
    + rewrite bind_run.
      destruct (held_call_frame a w s) as (_ & tr0 & Hl0 & Hg0 & Hf0).
      destruct (held_call a w s) as [[n err] s1]. cbn [fst snd] in *.
      destruct (isRevokedErr err).
      * destruct (recover_counts a n s1) as (tr & Hl & Hg & Hf).
        exists (tr0 ++ tr). rewrite Hl, Hl0, <- app_assoc.
        split; [reflexivity|]. rewrite !count_app. lia.
      * exists tr0. cbn [ret snd]. split; [exact Hl0|]. lia.
    + destruct (recover_counts a 0%Z s) as (tr & Hl & Hg & Hf).
      exists tr. split; [exact Hl|]. lia.
  - destruct (Upgrade_cases s)
      as [(_ & E) | [(w & r & w1 & _ & E)
                    | (s1 & tr0 & _ & _ & Hl & (Hg0 & Hf0) & _ & E)]];
      rewrite E.
    + exists []. cbn. rewrite app_nil_r. auto.
    + exists [Call_rl_Upgrade w]. destruct r; cbn; auto.
    + destruct (getContents_counts s1) as (_ & tr & Hl1 & Hg & Hf).
      exists (tr0 ++ tr).
      assert (Hlog : log (snd (getContents f s1)) = log s ++ tr0 ++ tr)
        by now rewrite Hl1, Hl, <- app_assoc.
      split.
      * destruct (fst (getContents f s1)); unfold retired, set_revoked;
          cbn [snd log]; exact Hlog.
      * rewrite !count_app. lia.
Qed.

End Properties.

(** * The properties on the scripted world *)

Lemma refresh_once_per_invalidation_witness :
  let s := scripted cached held_lease_revoked in
  revoked (proxy s) = false /\
  wrapped (proxy s) = Some 7%nat /\
  exists tr : list event,
    log (snd (access scripted_f read100 s)) = log s ++ tr /\
    count is_getContents tr = 1%nat /\ (count is_f tr <= 1)%nat.
Proof.
  split; [reflexivity|]. split; [reflexivity|].
  apply (refresh_once_per_invalidation scripted_f read100
           (scripted cached held_lease_revoked)
           (snd (held_call read100 7%nat (scripted cached held_lease_revoked)))
           7%nat (0%Z, Some RevokedError));
    reflexivity.
Defined.

(** C2 as stated fails: after a revoked error of the held lease and a
    failed [getContents], the slot is not empty, it still holds lease 7. *)
Lemma failed_refresh_leaves_lease_in_slot :
  let s := scripted cached no_space in
  revoked (proxy s) = false /\
  wrapped (proxy s) = Some 7%nat /\
  isRevokedErr (snd (fst (held_call read100 7%nat s))) = true /\
  (exists o e,
     fst (getContents scripted_f (snd (held_call read100 7%nat s)))
     = Failed o e) /\
  wrapped (proxy (snd (access scripted_f read100 s))) <> None.
Proof.
  cbv zeta. split; [reflexivity|]. split; [reflexivity|].
  split; [reflexivity|]. split.
  - eexists _, _. reflexivity.
  - discriminate.
Qed.

Lemma failed_refresh_keeps_proxy_witness :
  let s := scripted cached no_space in
  let s2 := mkState cached no_space
              [Call_rl_Read 7%nat; Enter_getContents; Call_NewFile] in
  access scripted_f read100 s
  = ((0%Z, Some (Errorf "getContents: %v"
                        (Errorf "NewFile: %v" (Foreign "no space")))), s2) /\
  proxy s2 = proxy s /\
  wrapped (proxy s2) = Some 7%nat /\
  revoked (proxy s2) = false /\
  (forall (a' : @accessor ctx nat) (r' : Z * option error) (s3 : state),
     held_call a' 7%nat s2 = (r', s3) ->
     if isRevokedErr (snd r')
     then exists tr : list event,
            log (snd (access scripted_f a' s2)) = log s2 ++ tr /\
            count is_getContents tr = 1%nat
     else access scripted_f a' s2 = (r', s3)).
Proof.
  apply (failed_refresh_keeps_proxy scripted_f read100
           (scripted cached no_space)
           (mkState cached no_space [Call_rl_Read 7%nat])
           (mkState cached no_space
              [Call_rl_Read 7%nat; Enter_getContents; Call_NewFile])
           7%nat 0%Z (Some RevokedError) None
           (Errorf "NewFile: %v" (Foreign "no space")));
    reflexivity.
Defined.

Lemma revoked_is_terminal_witness :
  let s := scripted dead all_well in
  let ops := [OpDestroy; OpAccess read100; OpUpgrade] in
  revoked (proxy s) = true /\
  revoked (proxy (snd (run scripted_f ops s))) = true /\
  (forall (c : ctx) (p : nat),
     Read scripted_f c p s = ((0%Z, Some RevokedError), s)) /\
  (forall (c : ctx) (offset whence : Z),
     Seek (Slice := nat) scripted_f c offset whence s
     = ((0%Z, Some RevokedError), s)) /\
  (forall (c : ctx) (p : nat) (off : Z),
     ReadAt scripted_f c p off s = ((0%Z, Some RevokedError), s)) /\
  Upgrade scripted_f s = ((None, Some RevokedError), s).
Proof.
  split; [reflexivity|].
  apply (revoked_is_terminal scripted_f (scripted dead all_well)
           [OpDestroy; OpAccess read100; OpUpgrade]).
  reflexivity.
Defined.

(** C4 as stated fails: the copy met no error and gave the declared 1024
    bytes, and the helper still returns an error, the one of the close. *)
Lemma right_count_and_close_error :
  let s := scripted fresh close_fails in
  io_Copy 1%nat 2%nat close_fails = ((1024%Z, None), close_fails) /\
  ~ ((exists o e, fst (getContents scripted_f s) = Failed o e) <->
     1024%Z <> size (proxy s)).
Proof.
  cbv zeta. split; [reflexivity|].
  intros [Herr _]. apply Herr; [|reflexivity].
  eexists _, _. reflexivity.
Qed.

Lemma getContents_error_iff_mismatch_or_close_witness :
  let s := scripted fresh short_source in
  ((exists o e, fst (getContents scripted_f s) = Failed o e) <->
   (1000%Z <> size (proxy s) \/ @None error <> None)) /\
  (1000%Z <> size (proxy s) ->
   getContents scripted_f s =
   (Failed (Some 1%nat)
      (ErrorfCopied "Copied %v bytes; expected %v" 1000 (size (proxy s))),
    snd (destroyReadWriteLease 1%nat
           (mkState (proxy s) short_source
              (log s ++ [Enter_getContents; Call_NewFile; Call_f;
                         Call_Copy 1%nat 2%nat; Call_Close 2%nat]))))).
Proof.
  apply (getContents_error_iff_mismatch_or_close scripted_f
           (scripted fresh short_source) 1%nat short_source 2%nat
           short_source 1000%Z short_source None short_source);
    reflexivity.
Defined.

Lemma getContents_failure_destroys_lease_witness :
  let s := scripted fresh short_source in
  let s' := snd (getContents scripted_f s) in
  let e := ErrorfCopied "Copied %v bytes; expected %v" 1000 1024 in
  Some 1%nat = Some 1%nat /\
  primary (size (proxy s)) e /\
  proxy s' = proxy s /\
  exists (s0 : state) (tr : list event),
    log s0 = log s ++ tr /\
    count is_cleanup tr = 0%nat /\
    destroyReadWriteLease 1%nat s0 = (tt, s') /\
    (forall rl w', rwl_Downgrade 1%nat (world s0) = (inl rl, w') ->
       log s' = log s0 ++ [Call_Downgrade 1%nat; Call_Revoke rl] /\
       world s' = rl_Revoke rl w') /\
    (forall de w', rwl_Downgrade 1%nat (world s0) = (inr de, w') ->
       log s' = log s0 ++
                [Call_Downgrade 1%nat;
                 Log_Printf "Error destroying read/write lease: %v"
                            (Errorf "Downgrade: %v" de)] /\
       world s' = w').
Proof.
  apply (getContents_failure_destroys_lease scripted_f
           (scripted fresh short_source)
           (snd (getContents scripted_f (scripted fresh short_source)))
           short_source 1%nat (Some 1%nat)
           (ErrorfCopied "Copied %v bytes; expected %v" 1000 1024));
    reflexivity.
Defined.

Lemma getContents_first_error_wins_witness :
  let s := scripted fresh close_fails in
  exists (c : contents) (s' : state) (tr : list event),
    getContents scripted_f s = (c, s') /\
    log s' = log s ++ [Enter_getContents; Call_NewFile; Call_f;
                       Call_Copy 1%nat 2%nat; Call_Close 2%nat] ++ tr /\
    count is_Close tr = 0%nat /\
    (forall e, @None error = Some e ->
               c = Failed (Some 1%nat) (Errorf "Copy: %v" e)) /\
    (@None error = None -> 1024%Z <> size (proxy s) ->
     c = Failed (Some 1%nat)
           (ErrorfCopied "Copied %v bytes; expected %v"
                         1024 (size (proxy s)))) /\
    (@None error = None -> 1024%Z = size (proxy s) ->
     Some (Foreign "close") = None -> c = Filled 1%nat) /\
    (forall ce, Some (Foreign "close") = Some ce ->
       (c = Failed (Some 1%nat) (Errorf "Close: %v" ce) <->
        @None error = None /\ 1024%Z = size (proxy s))).
Proof.
  apply (getContents_first_error_wins scripted_f
           (scripted fresh close_fails) 1%nat close_fails 2%nat close_fails
           1024%Z None close_fails (Some (Foreign "close")) close_fails);
    reflexivity.
Defined.

Lemma Upgrade_revokes_iff_success_witness :
  let s := scripted cached all_well in
  let s' := snd (Upgrade scripted_f s) in
  revoked (proxy s) = false /\
  (revoked (proxy s') = true <-> @None error = None) /\
  (@None error = None -> exists h, Some 7%nat = Some h) /\
  size (proxy s') = size (proxy s) /\
  wrapped (proxy s') = wrapped (proxy s).
Proof.
  split; [reflexivity|].
  apply (Upgrade_revokes_iff_success scripted_f (scripted cached all_well)
           (snd (Upgrade scripted_f (scripted cached all_well)))
           (Some 7%nat) None);
    reflexivity.
Defined.

(** C8 as stated fails: the contents were got anew after a revoked error,
    the downgrade failed, and the slot is not empty: it still holds the
    revoked lease 7. *)
Lemma failed_downgrade_leaves_lease_in_slot :
  let s := scripted cached downgrade_fails in
  let s1 := snd (held_call read100 7%nat s) in
  isRevokedErr (snd (fst (held_call read100 7%nat s))) = true /\
  fst (getContents scripted_f s1) = Filled 1%nat /\
  fst (rwl_Downgrade 1%nat downgrade_fails) = inr (Foreign "downgrade") /\
  fst (access scripted_f read100 s) = (100%Z, None) /\
  wrapped (proxy (snd (access scripted_f read100 s))) <> None.
Proof.
  cbv zeta. repeat (split; [reflexivity|]). discriminate.
Qed.

Lemma failed_downgrade_keeps_result_witness :
  let s := scripted cached downgrade_fails in
  let s1 := snd (held_call read100 7%nat s) in
  let s2 := snd (getContents scripted_f s1) in
  let s3 := snd (fresh_call read100 1%nat s2) in
  revoked (proxy s) = false /\
  access scripted_f read100 s
  = ((100%Z, None),
     mkState (proxy s) downgrade_fails
       (log s3 ++ [Call_Downgrade 1%nat;
                   Log_Printf
                     "Failed to downgrade write lease (%q); abandoning."
                     (Foreign "downgrade")])).
Proof.
  split; [reflexivity|].
  apply (failed_downgrade_keeps_result scripted_f read100
           (scripted cached downgrade_fails)
           (snd (held_call read100 7%nat (scripted cached downgrade_fails)))
           (snd (getContents scripted_f
                   (snd (held_call read100 7%nat
                           (scripted cached downgrade_fails)))))
           (snd (fresh_call read100 1%nat
                   (snd (getContents scripted_f
                           (snd (held_call read100 7%nat
                                   (scripted cached downgrade_fails)))))))
           1%nat (100%Z, None) (Foreign "downgrade") downgrade_fails);
    try reflexivity.
  right. exists 7%nat, 0%Z, (Some RevokedError).
  split; [reflexivity|]. split; reflexivity.
Defined.

(** C9 as stated fails: [Destroy] on a revoked proxy reads the slot and
    revokes lease 7 again, after a [Destroy] as after an [Upgrade] that
    succeeded; with an empty slot the same call does nothing. *)
Lemma Destroy_reads_slot_of_revoked_proxy :
  let s := scripted dead all_well in
  revoked (proxy s) = true /\
  log (snd (exec scripted_f (OpDestroy : @op ctx nat) s))
  = [Call_Revoke 7%nat] /\
  log (snd (exec scripted_f (OpDestroy : @op ctx nat) (with_wrapped None s)))
  = [] /\
  log (snd (run scripted_f [OpDestroy : @op ctx nat; OpDestroy]
              (scripted cached all_well)))
  = [Call_Revoke 7%nat; Call_Revoke 7%nat] /\
  log (snd (run scripted_f [OpUpgrade : @op ctx nat; OpDestroy]
              (scripted cached all_well)))
  = [Call_rl_Upgrade 7%nat; Call_Revoke 7%nat].
Proof.
  cbv zeta. repeat split; reflexivity.
Qed.

Lemma revoked_slot_only_read_by_Destroy_witness :
  let s := scripted dead all_well in
  let ops := [OpAccess read100; OpSize; OpUpgrade] in
  revoked (proxy s) = true /\
  proxy (snd (run scripted_f ops s)) = proxy s /\
  log (snd (run scripted_f ops s))
  = log s ++
    flat_map (fun o => if is_Destroy o then revokes (wrapped (proxy s))
                       else []) ops /\
  (forallb (fun o => negb (is_Destroy o)) ops = true ->
   forall x, run scripted_f ops (with_wrapped x s)
             = (fst (run scripted_f ops s), with_wrapped x s) /\
             snd (run scripted_f ops s) = s).
Proof.
  split; [reflexivity|].
  apply (revoked_slot_only_read_by_Destroy scripted_f
           [OpAccess read100; OpSize; OpUpgrade] (scripted dead all_well)).
  reflexivity.
Defined.

(** C10 at a concrete call: with a cancelled context on a proxy with an
    empty slot, [Read] calls the content function and serves the bytes, as
    it does with any other context. *)
Lemma Read_with_cancelled_context :
  let s := scripted fresh all_well in
  Read scripted_f Cancelled 100%nat s = Read scripted_f Background 100%nat s /\
  fst (Read scripted_f Cancelled 100%nat s) = (100%Z, None) /\
  count is_f (log (snd (Read scripted_f Cancelled 100%nat s))) = 1%nat.
Proof.
  cbv zeta. repeat split; reflexivity.
Qed.

(** ** The further properties on the scripted world *)

Lemma refreshed_lease_is_cached_witness :
  let s := scripted cached held_lease_revoked in
  let s1 := snd (held_call read100 7%nat s) in
  let s2 := snd (getContents scripted_f s1) in
  let s3 := snd (fresh_call read100 1%nat s2) in
  revoked (proxy s) = false /\
  access scripted_f read100 s
  = ((100%Z, None),
     mkState (mkReadProxy (size (proxy s)) false (Some 1%nat))
             held_lease_revoked (log s3 ++ [Call_Downgrade 1%nat])).
Proof.
  split; [reflexivity|].
  apply (refreshed_lease_is_cached scripted_f read100
           (scripted cached held_lease_revoked)
           (snd (held_call read100 7%nat (scripted cached held_lease_revoked)))
           (snd (getContents scripted_f
                   (snd (held_call read100 7%nat
                           (scripted cached held_lease_revoked)))))
           (snd (fresh_call read100 1%nat
                   (snd (getContents scripted_f
                           (snd (held_call read100 7%nat
                                   (scripted cached held_lease_revoked)))))))
           1%nat (100%Z, None) 1%nat held_lease_revoked);
    try reflexivity.
  right. exists 7%nat, 0%Z, (Some RevokedError).
  split; [reflexivity|]. split; reflexivity.
Defined.

Lemma only_Upgrade_and_Destroy_retire_witness :
  let s := scripted cached no_space in
  let ops := [OpAccess read100; OpSize; OpAccess seek10] in
  forallb (fun o => negb (retires o)) ops = true /\
  revoked (proxy (snd (run scripted_f ops s))) = revoked (proxy s).
Proof.
  split; [reflexivity|].
  apply (only_Upgrade_and_Destroy_retire scripted_f
           [OpAccess read100; OpSize; OpAccess seek10]
           (scripted cached no_space)).
  reflexivity.
Defined.

Lemma slot_is_never_emptied_witness :
  let s := scripted cached all_well in
  let ops := [OpAccess read100; OpUpgrade; OpDestroy] in
  wrapped (proxy s) <> None /\
  wrapped (proxy (snd (run scripted_f ops s))) <> None.
Proof.
  split; [discriminate|].
  apply (slot_is_never_emptied scripted_f
           [OpAccess read100; OpUpgrade; OpDestroy]
           (scripted cached all_well)).
  discriminate.
Defined.

Lemma successful_Upgrade_retires_witness :
  let s := scripted cached all_well in
  let s' := snd (Upgrade scripted_f s) in
  Upgrade scripted_f s = ((Some 7%nat, None), s') /\
  (forall a : @accessor ctx nat,
     access scripted_f a s' = ((0%Z, Some RevokedError), s')) /\
  Upgrade scripted_f s' = ((None, Some RevokedError), s').
Proof.
  split; [reflexivity|].
  apply (successful_Upgrade_retires scripted_f (scripted cached all_well)
           (snd (Upgrade scripted_f (scripted cached all_well)))
           (Some 7%nat)).
  reflexivity.
Defined.

Lemma Upgrade_hands_over_untouched_witness :
  let s := scripted fresh all_well in
  let s' := snd (Upgrade scripted_f s) in
  Upgrade scripted_f s = ((Some 1%nat, None), s') /\
  (exists tr : list event,
     log s' = log s ++ tr /\ count is_cleanup tr = 0%nat) /\
  exists h : nat,
    Some 1%nat = Some h /\
    ((exists w w1,
        wrapped (proxy s) = Some w /\
        rl_Upgrade w (world s) = (inl h, w1) /\
        s' = retired (mkState (proxy s) w1 (log s ++ [Call_rl_Upgrade w]))) \/
     (exists s1 s2 : state,
        (wrapped (proxy s) = None /\ s1 = s \/
         exists w e w1,
           wrapped (proxy s) = Some w /\
           rl_Upgrade w (world s) = (inr e, w1) /\
           isRevokedErr (Some e) = true /\
           s1 = mkState (proxy s) w1 (log s ++ [Call_rl_Upgrade w])) /\
        getContents scripted_f s1 = (Filled h, s2) /\
        s' = retired s2)).
Proof.
  split; [reflexivity|].
  apply (Upgrade_hands_over_untouched scripted_f (scripted fresh all_well)
           (snd (Upgrade scripted_f (scripted fresh all_well)))
           (Some 1%nat)).
  reflexivity.
Defined.

Lemma allocation_failure_stops_early_witness :
  let s := scripted fresh no_space in
  let err := Errorf "getContents: %v"
               (Errorf "NewFile: %v" (Foreign "no space")) in
  let s' := mkState (proxy s) no_space
              (log s ++ [Enter_getContents; Call_NewFile]) in
  access scripted_f read100 s = ((0%Z, Some err), s') /\
  Upgrade scripted_f s = ((None, Some err), s').
Proof.
  apply (allocation_failure_stops_early scripted_f read100
           (scripted fresh no_space) (Foreign "no space") no_space);
    reflexivity.
Defined.

Lemma source_failure_skips_copy_and_close_witness :
  let s := scripted fresh source_fails in
  exists (s' : state) (tr : list event),
    getContents scripted_f s
    = (Failed (Some 1%nat)
         (Errorf "User function: %v" (Foreign "origin down")), s') /\
    log s' = log s ++ [Enter_getContents; Call_NewFile; Call_f] ++ tr /\
    count is_Copy tr = 0%nat /\ count is_Close tr = 0%nat /\
    proxy s' = proxy s /\
    (forall rl w', rwl_Downgrade 1%nat source_fails = (inl rl, w') ->
       tr = [Call_Downgrade 1%nat; Call_Revoke rl] /\
       world s' = rl_Revoke rl w') /\
    (forall de w', rwl_Downgrade 1%nat source_fails = (inr de, w') ->
       tr = [Call_Downgrade 1%nat;
             Log_Printf "Error destroying read/write lease: %v"
                        (Errorf "Downgrade: %v" de)] /\
       world s' = w').
Proof.
  apply (source_failure_skips_copy_and_close scripted_f
           (scripted fresh source_fails) 1%nat source_fails
           (Foreign "origin down") source_fails);
    reflexivity.
Defined.

Lemma Upgrade_through_held_lease_witness :
  let s := scripted cached all_well in
  Upgrade scripted_f s
  = ((Some 7%nat, None),
     mkState (mkReadProxy (size (proxy s)) true (Some 7%nat)) all_well
             (log s ++ [Call_rl_Upgrade 7%nat])).
Proof.
  apply (Upgrade_through_held_lease scripted_f (scripted cached all_well)
           7%nat (inl 7%nat) all_well);
    reflexivity.
Defined.

Lemma failed_Upgrade_keeps_proxy_witness :
  let s := scripted cached no_space in
  let s1 := mkState (proxy s) no_space (log s ++ [Call_rl_Upgrade 7%nat]) in
  let s2 := snd (getContents scripted_f s1) in
  revoked (proxy s) = false /\
  Upgrade scripted_f s
  = ((None, Some (Errorf "getContents: %v"
                         (Errorf "NewFile: %v" (Foreign "no space")))), s2) /\
  proxy s2 = proxy s.
Proof.
  split; [reflexivity|].
  apply (failed_Upgrade_keeps_proxy scripted_f (scripted cached no_space)
           (mkState cached no_space [Call_rl_Upgrade 7%nat])
           (snd (getContents scripted_f
                   (mkState cached no_space [Call_rl_Upgrade 7%nat])))
           None (Errorf "NewFile: %v" (Foreign "no space")));
    try reflexivity.
  right. exists 7%nat, RevokedError, no_space.
  split; [reflexivity|]. split; [reflexivity|]. split; reflexivity.
Defined.

End lease.
